(** * Loomis head geometry engine

    A shallow embedding of the geometry helpers (plane circles, the
    front/back splitter, the side-band clipper, the rim radius) and of
    the landmark pipeline of [landmarks.ts] (calculateLandmarks,
    transformLandmarks, projectLandmarks).

    The TypeScript code computes on JavaScript numbers.  The embedding is
    written once, over an interface [Number] of the operations the code
    uses, and is read at two instances:

    - [float], the IEEE 754 binary64 numbers JavaScript really has, where
      the code can be run on concrete inputs (NaN included);
    - [R], exact real arithmetic, where the algebraic laws of the code
      are proved without rounding. *)

From Stdlib Require Import Floats.
From Stdlib Require Import Reals Lra Lia ZArith List String Bool.
Import ListNotations.

(** ** JavaScript numbers *)

Declare Scope js_scope.
Delimit Scope js_scope with js.

(** The arithmetic the engine uses: literals, the four operations, unary
    minus, the two comparisons, the [Math] functions, and the truthiness
    test behind [x || 1]. *)
Class Number (T : Type) : Type := {
  fromZ : Z -> T;
  add : T -> T -> T;
  sub : T -> T -> T;
  mul : T -> T -> T;
  div : T -> T -> T;
  neg : T -> T;
  leb : T -> T -> bool;
  ltb : T -> T -> bool;
  Math_abs : T -> T;
  Math_sqrt : T -> T;
  Math_max : T -> T -> T;
  Math_round : T -> T;
  truthy : T -> bool
}.

(** [Math.cos], [Math.sin] and [Math.PI]. *)
Class Trig (T : Type) : Type := {
  Math_cos : T -> T;
  Math_sin : T -> T;
  Math_PI : T
}.

Notation "x + y" := (add x y) : js_scope.
Notation "x - y" := (sub x y) : js_scope.
Notation "x * y" := (mul x y) : js_scope.
Notation "x / y" := (div x y) : js_scope.
Notation "- x" := (neg x) : js_scope.
Notation "x <=? y" := (leb x y) (at level 70, no associativity) : js_scope.
Notation "x <? y" := (ltb x y) (at level 70, no associativity) : js_scope.
Notation "x >=? y" := (leb y x) (at level 70, no associativity) : js_scope.
Notation "x >? y" := (ltb y x) (at level 70, no associativity) : js_scope.

(** A decimal literal [m / 10^k], such as [0.66 = lit 66 2]. *)
Definition lit {T} `{Number T} (m : Z) (k : nat) : T :=
  (fromZ m / fromZ (10 ^ Z.of_nat k))%js.

(** What the order of a number model has to satisfy for a sentence about
    [z < 0] to speak of the else branch of a test [z >= 0]. *)
Class NumberOrder (T : Type) `{Number T} : Prop := {
  ltb_not_geb : forall a b : T, (a <? b)%js = true -> (a >=? b)%js = false
}.

(** *** Exact real arithmetic

    [R] has no NaN and no infinities: the square root of a negative
    number and a quotient by zero are numbers like the others there.
    What is proved at [R] is proved of computations that take neither,
    and says what the code does up to rounding. *)

Module RealNumber.

Definition Rleb (a b : R) : bool := if Rle_dec a b then true else false.
Definition Rltb (a b : R) : bool := if Rlt_dec a b then true else false.

(** [Math.round] rounds to the nearest integer, halves upwards. *)
Definition Rround (x : R) : R := IZR (Int_part (x + / 2)).

Definition Rtruthy (x : R) : bool := if Req_dec_T x 0 then false else true.

End RealNumber.

#[export] Instance Number_R : Number R := {
  fromZ := IZR;
  add := Rplus;
  sub := Rminus;
  mul := Rmult;
  div := Rdiv;
  neg := Ropp;
  leb := RealNumber.Rleb;
  ltb := RealNumber.Rltb;
  Math_abs := Rabs;
  Math_sqrt := sqrt;
  Math_max := Rmax;
  Math_round := RealNumber.Rround;
  truthy := RealNumber.Rtruthy
}.

#[export] Instance Trig_R : Trig R := {
  Math_cos := cos;
  Math_sin := sin;
  Math_PI := PI
}.

(** *** IEEE 754 binary64

    The numbers of JavaScript, with the primitive operations of the
    kernel; [Math.max], [Math.round] and [ToBoolean] are written out
    after ECMAScript. *)

Module FloatNumber.

Local Open Scope float_scope.

(** Integer literals; exact below 2^53. *)
Definition ofZ (z : Z) : float :=
  match z with
  | Z0 => 0
  | Zpos _ => of_uint63 (Uint63.of_Z z)
  | Zneg p => - of_uint63 (Uint63.of_Z (Zpos p))
  end.

(** [Math.max]: NaN if either argument is, and [+0] above [-0]. *)
Definition max (a b : float) : float :=
  if is_nan a || is_nan b then nan
  else if a <? b then b
  else if b <? a then a
  else if get_sign a then b else a.

Definition two52 : float := 4503599627370496.

(** [Math.floor] on the floats of magnitude below 2^52 (the others are
    integers already): adding and subtracting 2^52 rounds the magnitude
    to an integer, which is then corrected downwards. *)
Definition floor (x : float) : float :=
  let a := PrimFloat.abs x in
  let r := (a + two52) - two52 in
  if x <? 0
  then - (if r <? a then r + 1 else r)
  else if a <? r then r - 1 else r.

(** [Math.round]: NaN, the infinities, the zeros and the integers are
    returned as they are; [-0.5 <= x < 0] gives [-0]; any other number
    goes to the nearest integer, a half going up. *)
Definition round (x : float) : float :=
  if PrimFloat.abs x <? two52 then
    if x =? 0 then x
    else if (x <? 0) && (-0.5 <=? x) then neg_zero
    else let f := floor x in
         if 0.5 <=? x - f then f + 1 else f
  else x.

(** [ToBoolean] of a number: false for the zeros and NaN. *)
Definition toBoolean (x : float) : bool := negb ((x =? 0) || is_nan x).

End FloatNumber.

#[export] Instance Number_float : Number float := {
  fromZ := FloatNumber.ofZ;
  add := PrimFloat.add;
  sub := PrimFloat.sub;
  mul := PrimFloat.mul;
  div := PrimFloat.div;
  neg := PrimFloat.opp;
  leb := PrimFloat.leb;
  ltb := PrimFloat.ltb;
  Math_abs := PrimFloat.abs;
  Math_sqrt := PrimFloat.sqrt;
  Math_max := FloatNumber.max;
  Math_round := FloatNumber.round;
  truthy := FloatNumber.toBoolean
}.

(** ** The three.js values the engine works on

    [Vector3] and [Quaternion] and the methods the code calls on them,
    after three.js ([src/math/Vector3.js]).  The methods of three.js
    update their receiver; the engine only ever calls them on a vector it
    has just made ([new THREE.Vector3()], [clone()]), so each is given
    here as the function from the receiver's old value to its new one. *)

Record Vector3 (T : Type) : Type := mkVector3 { vx : T; vy : T; vz : T }.
Arguments mkVector3 {T} _ _ _.
Arguments vx {T} _.
Arguments vy {T} _.
Arguments vz {T} _.

Record Quaternion (T : Type) : Type := mkQuaternion { qx : T; qy : T; qz : T; qw : T }.
Arguments mkQuaternion {T} _ _ _ _.
Arguments qx {T} _.
Arguments qy {T} _.
Arguments qz {T} _.
Arguments qw {T} _.

Module THREE.
Section Methods.
Context {T : Type} `{Number T}.
Local Open Scope js_scope.

(** [new THREE.Vector3()] *)
Definition newVector3 : Vector3 T := mkVector3 (fromZ 0) (fromZ 0) (fromZ 0).

(** [new THREE.Quaternion()], the identity rotation. *)
Definition newQuaternion : Quaternion T :=
  mkQuaternion (fromZ 0) (fromZ 0) (fromZ 0) (fromZ 1).

Definition clone (v : Vector3 T) : Vector3 T := v.

Definition crossVectors (a b : Vector3 T) : Vector3 T :=
  mkVector3 (vy a * vz b - vz a * vy b)
            (vz a * vx b - vx a * vz b)
            (vx a * vy b - vy a * vx b).

Definition length (v : Vector3 T) : T :=
  Math_sqrt (vx v * vx v + vy v * vy v + vz v * vz v).

Definition multiplyScalar (v : Vector3 T) (s : T) : Vector3 T :=
  mkVector3 (vx v * s) (vy v * s) (vz v * s).

Definition divideScalar (v : Vector3 T) (s : T) : Vector3 T :=
  multiplyScalar v (fromZ 1 / s).

(** [this.divideScalar(this.length() || 1)] *)
Definition normalize (v : Vector3 T) : Vector3 T :=
  divideScalar v (if truthy (length v) then length v else fromZ 1).

Definition addVector (v w : Vector3 T) : Vector3 T :=
  mkVector3 (vx v + vx w) (vy v + vy w) (vz v + vz w).

Definition addScaledVector (v w : Vector3 T) (s : T) : Vector3 T :=
  mkVector3 (vx v + vx w * s) (vy v + vy w * s) (vz v + vz w * s).

Definition lerpVectors (v1 v2 : Vector3 T) (alpha : T) : Vector3 T :=
  mkVector3 (vx v1 + (vx v2 - vx v1) * alpha)
            (vy v1 + (vy v2 - vy v1) * alpha)
            (vz v1 + (vz v2 - vz v1) * alpha).

(** [v.applyQuaternion(q)]: with [t = 2 * cross(q.xyz, v)], the result
    is [v + q.w * t + cross(q.xyz, t)]. *)
Definition applyQuaternion (v : Vector3 T) (q : Quaternion T) : Vector3 T :=
  let tx := fromZ 2 * (qy q * vz v - qz q * vy v) in
  let ty := fromZ 2 * (qz q * vx v - qx q * vz v) in
  let tz := fromZ 2 * (qx q * vy v - qy q * vx v) in
  mkVector3 (vx v + qw q * tx + qy q * tz - qz q * ty)
            (vy v + qw q * ty + qz q * tx - qx q * tz)
            (vz v + qw q * tz + qx q * ty - qy q * tx).

End Methods.
End THREE.

(** ** landmarks.ts *)

Record Landmark (T : Type) : Type := mkLandmark {
  name : string;
  position : Vector3 T;
  color : option string
}.
Arguments mkLandmark {T} _ _ _.
Arguments name {T} _.
Arguments position {T} _.
Arguments color {T} _.

Record ProjectedLandmark (T : Type) : Type := mkProjectedLandmark {
  pname : string;
  px : T;
  py : T;
  visible : bool
}.
Arguments mkProjectedLandmark {T} _ _ _ _.
Arguments pname {T} _.
Arguments px {T} _.
Arguments py {T} _.
Arguments visible {T} _.

Record HeadParams (T : Type) : Type := mkHeadParams {
  radius : T;
  sideCut : T;
  hairlinePos : T;
  browPos : T;
  eyeLinePos : T;
  nosePos : T;
  mouthPos : T;
  eyeWidth : T;
  noseWidth : T;
  mouthWidth : T;
  eyeCurve : T;
  noseCurve : T;
  mouthCurve : T;
  chinPos : T;
  chinWidth : T;
  chinCurve : T;
  chinLineCurve : T;
  jawDrop : T;
  jawWidth : T
}.
Arguments mkHeadParams {T}.
Arguments radius {T} _.
Arguments sideCut {T} _.
Arguments hairlinePos {T} _.
Arguments browPos {T} _.
Arguments eyeLinePos {T} _.
Arguments nosePos {T} _.
Arguments mouthPos {T} _.
Arguments eyeWidth {T} _.
Arguments noseWidth {T} _.
Arguments mouthWidth {T} _.
Arguments eyeCurve {T} _.
Arguments noseCurve {T} _.
Arguments mouthCurve {T} _.
Arguments chinPos {T} _.
Arguments chinWidth {T} _.
Arguments chinCurve {T} _.
Arguments chinLineCurve {T} _.
Arguments jawDrop {T} _.
Arguments jawWidth {T} _.

(** The pan offset [{x, y}]. *)
Record Pan (T : Type) : Type := mkPan { pan_x : T; pan_y : T }.
Arguments mkPan {T} _ _.
Arguments pan_x {T} _.
Arguments pan_y {T} _.

Section Landmarks.
Context {T : Type} `{Number T}.
Local Open Scope js_scope.
Local Open Scope string_scope.

(** z-position on the face curve for a y-position: the sphere front on
    or above the equator, a quadratic ease towards the chin below. *)
Definition getFaceCurveZ (yPos radius chinY chinZ : T) : T :=
  if yPos >=? fromZ 0 then radius
  else
    let t := (yPos - fromZ 0) / (chinY - fromZ 0) in
    let tEased := t * t in
    radius + tEased * (chinZ - radius).

(** The helper local to [calculateLandmarks]; [radius] is the variable
    it closes over. *)
Definition getPointOnSphereFront (radius yRatio : T) : Vector3 T :=
  let y := yRatio * radius in
  let rSquared := radius * radius - y * y in
  let z := if rSquared >? fromZ 0 then Math_sqrt rSquared else fromZ 0 in
  mkVector3 (fromZ 0) y z.

Definition calculateLandmarks (params : HeadParams T) : list (Landmark T) :=
  let radius := radius params in
  let sideCut := sideCut params in
  let hairlinePos := hairlinePos params in
  let browPos := browPos params in
  let eyeLinePos := eyeLinePos params in
  let nosePos := nosePos params in
  let mouthPos := mouthPos params in
  let eyeWidth := eyeWidth params in
  let noseWidth := noseWidth params in
  let mouthWidth := mouthWidth params in
  let eyeCurve := eyeCurve params in
  let noseCurve := noseCurve params in
  let mouthCurve := mouthCurve params in
  let chinPos := chinPos params in
  let chinWidth := chinWidth params in
  let chinCurve := chinCurve params in
  let chinLineCurve := chinLineCurve params in
  let jawDrop := jawDrop params in
  let jawWidth := jawWidth params in
  let chinY := - radius - chinPos * radius in
  let chinZ := radius - chinLineCurve * radius in
  let eyeLineY := eyeLinePos * radius in
  let noseLineY := nosePos * radius in
  let mouthLineY := mouthPos * radius in
  let eyeWidthHalf := eyeWidth * radius in
  let noseWidthHalf := noseWidth * radius in
  let mouthWidthHalf := mouthWidth * radius in
  let chinWidthHalf := chinWidth * radius in
  let eyeCurveDepth := eyeCurve * radius in
  let noseCurveDepth := noseCurve * radius in
  let mouthCurveDepth := mouthCurve * radius in
  let chinCurveHeight := chinCurve * radius in
  let cutDistance := sideCut * radius in
  let rimRadius := Math_sqrt (radius * radius - cutDistance * cutDistance) in
  let jawDropDistance := jawDrop * radius in
  let jawWidthDistance := jawWidth * radius in
  [ mkLandmark "Sphere Center"
      (mkVector3 (fromZ 0) (fromZ 0) (fromZ 0)) (Some "#ff00ff");
    mkLandmark "Crown"
      (mkVector3 (fromZ 0) radius (fromZ 0)) (Some "#4ecdc4");
    mkLandmark "Hairline"
      (getPointOnSphereFront radius hairlinePos) (Some "#ffd93d");
    mkLandmark "Brow"
      (getPointOnSphereFront radius browPos) (Some "#ffd93d");
    mkLandmark "Eye Center"
      (mkVector3 (fromZ 0) eyeLineY (getFaceCurveZ eyeLineY radius chinY chinZ))
      (Some "#ff6b6b");
    mkLandmark "Eye Left"
      (mkVector3 (- eyeWidthHalf) eyeLineY
         (getFaceCurveZ eyeLineY radius chinY chinZ - eyeCurveDepth))
      (Some "#ff6b6b");
    mkLandmark "Eye Right"
      (mkVector3 eyeWidthHalf eyeLineY
         (getFaceCurveZ eyeLineY radius chinY chinZ - eyeCurveDepth))
      (Some "#ff6b6b");
    mkLandmark "Nose Center"
      (mkVector3 (fromZ 0) noseLineY (getFaceCurveZ noseLineY radius chinY chinZ))
      (Some "#ff6b6b");
    mkLandmark "Nose Left"
      (mkVector3 (- noseWidthHalf) noseLineY
         (getFaceCurveZ noseLineY radius chinY chinZ - noseCurveDepth))
      (Some "#ff6b6b");
    mkLandmark "Nose Right"
      (mkVector3 noseWidthHalf noseLineY
         (getFaceCurveZ noseLineY radius chinY chinZ - noseCurveDepth))
      (Some "#ff6b6b");
    mkLandmark "Mouth Center"
      (mkVector3 (fromZ 0) mouthLineY (getFaceCurveZ mouthLineY radius chinY chinZ))
      (Some "#ff6b6b");
    mkLandmark "Mouth Left"
      (mkVector3 (- mouthWidthHalf) mouthLineY
         (getFaceCurveZ mouthLineY radius chinY chinZ - mouthCurveDepth))
      (Some "#ff6b6b");
    mkLandmark "Mouth Right"
      (mkVector3 mouthWidthHalf mouthLineY
         (getFaceCurveZ mouthLineY radius chinY chinZ - mouthCurveDepth))
      (Some "#ff6b6b");
    mkLandmark "Chin"
      (mkVector3 (fromZ 0) chinY chinZ) (Some "#45b7d1");
    mkLandmark "Chin Left"
      (mkVector3 (- chinWidthHalf) chinY (chinZ - chinCurveHeight))
      (Some "#45b7d1");
    mkLandmark "Chin Right"
      (mkVector3 chinWidthHalf chinY (chinZ - chinCurveHeight))
      (Some "#45b7d1");
    mkLandmark "Jaw Start Left"
      (mkVector3 (- cutDistance) (- rimRadius) (fromZ 0)) (Some "#45b7d1");
    mkLandmark "Jaw Start Right"
      (mkVector3 cutDistance (- rimRadius) (fromZ 0)) (Some "#45b7d1");
    mkLandmark "Jaw Drop Left"
      (mkVector3 (- jawWidthDistance) (- rimRadius - jawDropDistance) (fromZ 0))
      (Some "#45b7d1");
    mkLandmark "Jaw Drop Right"
      (mkVector3 jawWidthDistance (- rimRadius - jawDropDistance) (fromZ 0))
      (Some "#45b7d1") ].

(** Rotation first, then the pan, which has no z component. *)
Definition transformLandmarks (landmarks : list (Landmark T))
    (rotation : Quaternion T) (pan : Pan T) : list (Landmark T) :=
  map (fun landmark =>
         mkLandmark (name landmark)
           (THREE.addVector
              (THREE.applyQuaternion (THREE.clone (position landmark)) rotation)
              (mkVector3 (pan_x pan) (pan_y pan) (fromZ 0)))
           (color landmark))
      landmarks.

Definition projectLandmarks (landmarks : list (Landmark T))
    (canvasWidth canvasHeight : T) : list (ProjectedLandmark T) :=
  map (fun landmark =>
         let pos := position landmark in
         let x := canvasWidth / fromZ 2 + vx pos in
         let y := canvasHeight / fromZ 2 - vy pos in
         let visible := vz pos >=? fromZ 0 in
         mkProjectedLandmark (name landmark) (Math_round x) (Math_round y) visible)
      landmarks.

(** Lookup by name, as the overlay does. *)
Definition findLandmark (n : string) (ls : list (Landmark T)) : option (Landmark T) :=
  find (fun l => String.eqb (name l) n) ls.

Definition findProjected (n : string) (ls : list (ProjectedLandmark T))
  : option (ProjectedLandmark T) :=
  find (fun l => String.eqb (pname l) n) ls.

End Landmarks.

(** ** The geometry helpers *)

(** The result of [splitFrontBack]: the front runs and the back runs. *)
Record FrontBack (T : Type) : Type := mkFrontBack {
  front : list (list (Vector3 T));
  back : list (list (Vector3 T))
}.
Arguments mkFrontBack {T} _ _.
Arguments front {T} _.
Arguments back {T} _.

Section Geometry.
Context {T : Type} `{Number T}.
Local Open Scope js_scope.

(** An orthonormal basis [(u, v)] of the plane of normal [n]: the helper
    axis is the unit axis along which [n] is smallest. *)
Definition basisFromNormal (n : Vector3 T) : Vector3 T * Vector3 T :=
  let absX := Math_abs (vx n) in
  let absY := Math_abs (vy n) in
  let absZ := Math_abs (vz n) in
  let axis :=
    if (absX <=? absY) && (absX <=? absZ) then mkVector3 (fromZ 1) (fromZ 0) (fromZ 0)
    else if absY <=? absZ then mkVector3 (fromZ 0) (fromZ 1) (fromZ 0)
    else mkVector3 (fromZ 0) (fromZ 0) (fromZ 1) in
  let u := THREE.normalize (THREE.crossVectors n axis) in
  let v := THREE.crossVectors n u in
  (u, v).

(** The loop [for (i = 0; i <= segments; i++)] pushes one point per [i]. *)
Definition circleOnPlane `{Trig T} (center normal : Vector3 T) (radius : T)
    (segments : nat) : list (Vector3 T) :=
  let '(u, v) := basisFromNormal (THREE.normalize (THREE.clone normal)) in
  map (fun i : nat =>
         let t := fromZ (Z.of_nat i) / fromZ (Z.of_nat segments) * Math_PI * fromZ 2 in
         THREE.addVector
           (THREE.addScaledVector
              (THREE.addScaledVector THREE.newVector3 u (Math_cos t * radius))
              v (Math_sin t * radius))
           center)
      (seq 0 (S segments)).

Definition rotatePoints (points : list (Vector3 T)) (quaternion : Quaternion T)
  : list (Vector3 T) :=
  map (fun p => THREE.applyQuaternion (THREE.clone p) quaternion) points.

(** Front is [z >= 0]. *)
Definition isFront (point : Vector3 T) : bool := vz point >=? fromZ 0.

(** [xs.length > 0] *)
Definition nonEmpty {A} (xs : list A) : bool := (0 <? List.length xs)%nat.

(** The loop of [splitFrontBack] over the points still to visit, with its
    four variables; after the loop the runs still open are pushed. *)
Fixpoint splitLoop (points : list (Vector3 T))
    (front back : list (list (Vector3 T)))
    (currentFront currentBack : list (Vector3 T)) : FrontBack T :=
  match points with
  | [] =>
      mkFrontBack
        (if nonEmpty currentFront then front ++ [currentFront] else front)
        (if nonEmpty currentBack then back ++ [currentBack] else back)
  | point :: rest =>
      if isFront point then
        if nonEmpty currentBack
        then splitLoop rest front (back ++ [currentBack]) (currentFront ++ [point]) []
        else splitLoop rest front back (currentFront ++ [point]) currentBack
      else
        if nonEmpty currentFront
        then splitLoop rest (front ++ [currentFront]) back [] (currentBack ++ [point])
        else splitLoop rest front back currentFront (currentBack ++ [point])
  end.

Definition splitFrontBack (points : list (Vector3 T)) : FrontBack T :=
  splitLoop points [] [] [] [].

(** The radius of the circle cut from a sphere at distance [cutDistance]
    of its centre. *)
Definition calculateRimRadius (sphereRadius cutDistance : T) : T :=
  let rSquared := sphereRadius * sphereRadius - cutDistance * cutDistance in
  Math_sqrt (Math_max (fromZ 0) rSquared).

(** [1e-6] *)
Definition EPS : T := lit 1 6.

Definition lerp3 (p0 p1 : Vector3 T) (t : T) : Vector3 T :=
  THREE.lerpVectors p0 p1 t.

(** Where the edge from [p0] to [p1] crosses [x = boundary]; [None] is
    the source's [null]. *)
Definition intersectX (p0 p1 : Vector3 T) (boundary : T) : option (Vector3 T) :=
  let dx := vx p1 - vx p0 in
  if Math_abs dx <? EPS then None
  else
    let t := (boundary - vx p0) / dx in
    if (t >=? fromZ 0) && (t <=? fromZ 1) then Some (lerp3 p0 p1 t) else None.

Definition isInside (d : T) (p : Vector3 T) : bool := Math_abs (vx p) <=? d + EPS.

(** One turn of the loop of [clipToSideBand] for [i > 0]: from the
    segments closed so far and the segment being built to their values
    after the edge from [prev] to [curr]. *)
Definition clipStep (d : T) (prev curr : Vector3 T)
    (segments : list (list (Vector3 T))) (currentSegment : list (Vector3 T))
  : list (list (Vector3 T)) * list (Vector3 T) :=
  let currInside := isInside d curr in
  let prevInside := isInside d prev in
  if prevInside && currInside then
    (segments, currentSegment ++ [THREE.clone curr])
  else if prevInside && negb currInside then
    let boundary := if vx curr >? d then d else - d in
    let currentSegment :=
      match intersectX prev curr boundary with
      | Some intersection => currentSegment ++ [intersection]
      | None => currentSegment
      end in
    (if (2 <=? List.length currentSegment)%nat
     then segments ++ [currentSegment] else segments, [])
  else if negb prevInside && currInside then
    let boundary := if vx prev >? d then d else - d in
    match intersectX prev curr boundary with
    | Some intersection => (segments, [intersection; THREE.clone curr])
    | None => (segments, [THREE.clone curr])
    end
  else
    if ((vx prev <? - d) && (vx curr >? d)) || ((vx prev >? d) && (vx curr <? - d)) then
      match intersectX prev curr (- d), intersectX prev curr d with
      | Some int1, Some int2 =>
          if vx prev <? vx curr
          then (segments ++ [[int1; int2]], currentSegment)
          else (segments ++ [[int2; int1]], currentSegment)
      | _, _ => (segments, currentSegment)
      end
    else (segments, currentSegment).

(** The turns [i = 1 .. n-1], [prev] being [points[i - 1]], and the push
    of the segment still open after the loop. *)
Fixpoint clipLoop (d : T) (prev : Vector3 T) (points : list (Vector3 T))
    (segments : list (list (Vector3 T))) (currentSegment : list (Vector3 T))
  : list (list (Vector3 T)) :=
  match points with
  | [] =>
      if (2 <=? List.length currentSegment)%nat
      then segments ++ [currentSegment] else segments
  | curr :: rest =>
      let '(segments, currentSegment) := clipStep d prev curr segments currentSegment in
      clipLoop d curr rest segments currentSegment
  end.

(** Clip an open polyline to the band [|x| <= d]. *)
Definition clipToSideBand (points : list (Vector3 T)) (d : T)
  : list (list (Vector3 T)) :=
  if (List.length points <? 2)%nat then []
  else
    match points with
    | [] => []
    | first :: rest =>
        clipLoop d first rest []
          (if isInside d first then [THREE.clone first] else [])
    end.

End Geometry.

(** ** The callers' parameters *)

Section Defaults.
Context {T : Type} `{Number T}.

(** The defaults of the scene component's props, for a given radius. *)
Definition sceneDefaults (radius : T) : HeadParams T :=
  {| radius := radius;
     sideCut := lit 66 2;
     hairlinePos := lit 33 2;
     browPos := fromZ 0;
     eyeLinePos := lit (-15) 2;
     nosePos := lit (-5) 1;
     mouthPos := lit (-75) 2;
     eyeWidth := lit 4 1;
     noseWidth := lit 25 2;
     mouthWidth := lit 3 1;
     eyeCurve := lit 2 1;
     noseCurve := lit 2 1;
     mouthCurve := lit 2 1;
     chinPos := lit 5 1;
     chinWidth := lit 3 1;
     chinCurve := lit 2 1;
     chinLineCurve := fromZ 0;
     jawDrop := lit 3 1;
     jawWidth := lit 68 2 |}.

(** The initial state of the page, whose radius is 100. *)
Definition pageDefaults : HeadParams T :=
  {| radius := fromZ 100;
     sideCut := lit 68 2;
     hairlinePos := lit 50 2;
     browPos := fromZ 0;
     eyeLinePos := lit (-20) 2;
     nosePos := lit (-70) 2;
     mouthPos := lit (-92) 2;
     eyeWidth := lit 63 2;
     noseWidth := lit 13 2;
     mouthWidth := lit 24 2;
     eyeCurve := lit 14 2;
     noseCurve := lit 0 1;
     mouthCurve := lit 10 2;
     chinPos := lit 35 2;
     chinWidth := lit 30 2;
     chinCurve := lit 17 2;
     chinLineCurve := lit 25 2;
     jawDrop := lit 30 2;
     jawWidth := lit 68 2 |}.

(** [{...params, radius}] *)
Definition withRadius (radius : T) (params : HeadParams T) : HeadParams T :=
  {| radius := radius;
     sideCut := sideCut params;
     hairlinePos := hairlinePos params;
     browPos := browPos params;
     eyeLinePos := eyeLinePos params;
     nosePos := nosePos params;
     mouthPos := mouthPos params;
     eyeWidth := eyeWidth params;
     noseWidth := noseWidth params;
     mouthWidth := mouthWidth params;
     eyeCurve := eyeCurve params;
     noseCurve := noseCurve params;
     mouthCurve := mouthCurve params;
     chinPos := chinPos params;
     chinWidth := chinWidth params;
     chinCurve := chinCurve params;
     chinLineCurve := chinLineCurve params;
     jawDrop := jawDrop params;
     jawWidth := jawWidth params |}.

(** [{...params, sideCut}] *)
Definition withSideCut (sideCut : T) (params : HeadParams T) : HeadParams T :=
  {| radius := radius params;
     sideCut := sideCut;
     hairlinePos := hairlinePos params;
     browPos := browPos params;
     eyeLinePos := eyeLinePos params;
     nosePos := nosePos params;
     mouthPos := mouthPos params;
     eyeWidth := eyeWidth params;
     noseWidth := noseWidth params;
     mouthWidth := mouthWidth params;
     eyeCurve := eyeCurve params;
     noseCurve := noseCurve params;
     mouthCurve := mouthCurve params;
     chinPos := chinPos params;
     chinWidth := chinWidth params;
     chinCurve := chinCurve params;
     chinLineCurve := chinLineCurve params;
     jawDrop := jawDrop params;
     jawWidth := jawWidth params |}.

(** The pipeline of the scene's effect: landmarks, transformed, projected. *)
Definition landmarksUpdate (params : HeadParams T) (rotation : Quaternion T)
    (pan : Pan T) (canvasWidth canvasHeight : T) : list (ProjectedLandmark T) :=
  projectLandmarks
    (transformLandmarks (calculateLandmarks params) rotation pan)
    canvasWidth canvasHeight.

End Defaults.

(** ** Reading the results *)

(** Two lists of runs put back in turn, the first list leading. *)
Fixpoint alternate {A : Type} (xs ys : list A) {struct xs} : list A :=
  match xs with
  | [] => ys
  | x :: xs' =>
      x :: match ys with
           | [] => xs'
           | y :: ys' => y :: alternate xs' ys'
           end
  end.

(** The runs of a [FrontBack] in the order of the points they came from:
    front and back runs alternate, and the class of the first point says
    which list leads. *)
Definition runsInOrder {T} `{Number T} (points : list (Vector3 T))
    (r : FrontBack T) : list (list (Vector3 T)) :=
  match points with
  | [] => []
  | p :: _ => if isFront p then alternate (front r) (back r)
              else alternate (back r) (front r)
  end.

(** The maximum of [|x|] over the points of a polyline. *)
Definition maxAbsX (points : list (Vector3 R)) : R :=
  fold_right (fun p m => Rmax (Rabs (vx p)) m) 0%R points.

(** Rotation by a quaternion, as algebra has it: the vector part of
    [q * (0, p) * conj q], with the Hamilton product. *)
Definition qmul (a b : Quaternion R) : Quaternion R :=
  mkQuaternion
    (qw a * qx b + qx a * qw b + qy a * qz b - qz a * qy b)%R
    (qw a * qy b - qx a * qz b + qy a * qw b + qz a * qx b)%R
    (qw a * qz b + qx a * qy b - qy a * qx b + qz a * qw b)%R
    (qw a * qw b - qx a * qx b - qy a * qy b - qz a * qz b)%R.

Definition qconj (q : Quaternion R) : Quaternion R :=
  mkQuaternion (- qx q)%R (- qy q)%R (- qz q)%R (qw q).

Definition rotate (q : Quaternion R) (p : Vector3 R) : Vector3 R :=
  let r := qmul (qmul q (mkQuaternion (vx p) (vy p) (vz p) 0%R)) (qconj q) in
  mkVector3 (qx r) (qy r) (qz r).

Definition unitQuaternion (q : Quaternion R) : Prop :=
  (qx q * qx q + qy q * qy q + qz q * qz q + qw q * qw q = 1)%R.

(** A point moved by [(dx, dy, dz)]. *)
Definition translate (p : Vector3 R) (dx dy dz : R) : Vector3 R :=
  mkVector3 (vx p + dx)%R (vy p + dy)%R (vz p + dz)%R.

(** The names and colours of the landmarks, in the order of the array
    literal of [calculateLandmarks]. *)
Definition landmarkTable : list (string * string) :=
  [ ("Sphere Center", "#ff00ff"); ("Crown", "#4ecdc4");
    ("Hairline", "#ffd93d"); ("Brow", "#ffd93d");
    ("Eye Center", "#ff6b6b"); ("Eye Left", "#ff6b6b"); ("Eye Right", "#ff6b6b");
    ("Nose Center", "#ff6b6b"); ("Nose Left", "#ff6b6b"); ("Nose Right", "#ff6b6b");
    ("Mouth Center", "#ff6b6b"); ("Mouth Left", "#ff6b6b"); ("Mouth Right", "#ff6b6b");
    ("Chin", "#45b7d1"); ("Chin Left", "#45b7d1"); ("Chin Right", "#45b7d1");
    ("Jaw Start Left", "#45b7d1"); ("Jaw Start Right", "#45b7d1");
    ("Jaw Drop Left", "#45b7d1"); ("Jaw Drop Right", "#45b7d1") ]%string.

(** The features that come as a left and a right landmark. *)
Definition pairedFeatures : list string :=
  [ "Eye"; "Nose"; "Mouth"; "Chin"; "Jaw Start"; "Jaw Drop" ]%string.

(** The image of a point in the plane [x = 0]. *)
Definition mirrorX {T} `{Number T} (v : Vector3 T) : Vector3 T :=
  mkVector3 (- vx v)%js (vy v) (vz v).

(** The landmarks with a NaN coordinate. *)
Definition nanLandmarks (ls : list (Landmark float)) : list string :=
  map name
    (filter (fun l => is_nan (vx (position l)) || is_nan (vy (position l))
                      || is_nan (vz (position l)))
            ls).

(** The angle of point [i] of a circle of [segments] steps. *)
Definition angle (segments i : nat) : R :=
  (INR i / INR segments * PI * 2)%R.

(** The class of the first point, if there is one. *)
Definition startsWith {T} `{Number T} (side : bool) (points : list (Vector3 T)) : Prop :=
  match points with
  | [] => True
  | p :: _ => isFront p = side
  end.

(** A segment worth returning. *)
Definition longEnough {T} (s : list (Vector3 T)) : Prop := (2 <= List.length s)%nat.

(** ** transformLandmarks on a store of vectors

    [clone], [applyQuaternion] and [add] of three.js work on objects:
    [clone] makes a new vector, the other two overwrite their receiver
    and return it.  To say what [transformLandmarks] does to the vectors
    it is given, the vectors are put in a store and the landmarks hold
    references into it.  A landmark object itself is only read here, and
    [{...landmark, position: p}] makes a new object. *)

Module Heap.

Definition Ref : Type := nat.

Definition Store (T : Type) : Type := list (Vector3 T).

Record LandmarkObj : Type := mkLandmarkObj {
  oname : string;
  oposition : Ref;
  ocolor : option string
}.

Section Store.
Context {T : Type} `{Number T}.

Definition read (s : Store T) (r : Ref) : option (Vector3 T) := nth_error s r.

Fixpoint write (s : Store T) (r : Ref) (v : Vector3 T) : Store T :=
  match s, r with
  | [], _ => []
  | _ :: s', O => v :: s'
  | w :: s', S r' => w :: write s' r' v
  end.

(** A new object, after all the others. *)
Definition alloc (s : Store T) (v : Vector3 T) : Ref * Store T :=
  (List.length s, (s ++ [v])%list).

(** [r.clone()] *)
Definition cloneM (r : Ref) (s : Store T) : option (Ref * Store T) :=
  match read s r with
  | Some v => Some (alloc s v)
  | None => None
  end.

(** [r.applyQuaternion(q)]: overwrites [r], returns [r]. *)
Definition applyQuaternionM (r : Ref) (q : Quaternion T) (s : Store T)
  : option (Ref * Store T) :=
  match read s r with
  | Some v => Some (r, write s r (THREE.applyQuaternion v q))
  | None => None
  end.

(** [r.add(w)]: overwrites [r], returns [r]. *)
Definition addM (r w : Ref) (s : Store T) : option (Ref * Store T) :=
  match read s r, read s w with
  | Some v, Some u => Some (r, write s r (THREE.addVector v u))
  | _, _ => None
  end.

(** The body of the arrow function of [transformLandmarks]. *)
Definition transformOne (rotation : Quaternion T) (pan : Pan T)
    (landmark : LandmarkObj) (s : Store T) : option (LandmarkObj * Store T) :=
  match cloneM (oposition landmark) s with
  | None => None
  | Some (c, s1) =>
      match applyQuaternionM c rotation s1 with
      | None => None
      | Some (c1, s2) =>
          let '(p, s3) := alloc s2 (mkVector3 (pan_x pan) (pan_y pan) (fromZ 0)) in
          match addM c1 p s3 with
          | None => None
          | Some (c2, s4) =>
              Some (mkLandmarkObj (oname landmark) c2 (ocolor landmark), s4)
          end
      end
  end.

(** [landmarks.map(...)], the store threaded from one landmark to the next. *)
Fixpoint transformLandmarksM (landmarks : list LandmarkObj)
    (rotation : Quaternion T) (pan : Pan T) (s : Store T)
  : option (list LandmarkObj * Store T) :=
  match landmarks with
  | [] => Some ([], s)
  | landmark :: rest =>
      match transformOne rotation pan landmark s with
      | None => None
      | Some (l', s') =>
          match transformLandmarksM rest rotation pan s' with
          | None => None
          | Some (rest', s'') => Some (l' :: rest', s'')
          end
      end
  end.

(** The landmark a landmark object stands for in a store. *)
Definition deref (s : Store T) (l : LandmarkObj) : option (Landmark T) :=
  match read s (oposition l) with
  | Some v => Some (mkLandmark (oname l) v (ocolor l))
  | None => None
  end.

Fixpoint derefAll (s : Store T) (ls : list LandmarkObj) : option (list (Landmark T)) :=
  match ls with
  | [] => Some []
  | l :: rest =>
      match deref s l, derefAll s rest with
      | Some v, Some vs => Some (v :: vs)
      | _, _ => None
      end
  end.

End Store.
End Heap.

(** ** stores/rotation.ts

    The quaternion methods the store calls, after three.js
    ([src/math/Quaternion.js]), and the store itself: the two writable
    values, and each exported function as the change it makes to them. *)

Module THREE_Quaternion.
Section Methods.
Context {T : Type} `{Number T} `{Trig T}.
Local Open Scope js_scope.

Definition clone (q : Quaternion T) : Quaternion T := q.

(** [q.setFromAxisAngle(axis, angle)]; the axis is taken to be of length 1. *)
Definition setFromAxisAngle (axis : Vector3 T) (angle : T) : Quaternion T :=
  let halfAngle := angle / fromZ 2 in
  let s := Math_sin halfAngle in
  mkQuaternion (vx axis * s) (vy axis * s) (vz axis * s) (Math_cos halfAngle).

Definition multiplyQuaternions (a b : Quaternion T) : Quaternion T :=
  let qax := qx a in let qay := qy a in let qaz := qz a in let qaw := qw a in
  let qbx := qx b in let qby := qy b in let qbz := qz b in let qbw := qw b in
  mkQuaternion
    (qax * qbw + qaw * qbx + qay * qbz - qaz * qby)
    (qay * qbw + qaw * qby + qaz * qbx - qax * qbz)
    (qaz * qbw + qaw * qbz + qax * qby - qay * qbx)
    (qaw * qbw - qax * qbx - qay * qby - qaz * qbz).

(** [this.multiply(q)] is [this * q]; [this.premultiply(q)] is [q * this]. *)
Definition multiply (this q : Quaternion T) : Quaternion T :=
  multiplyQuaternions this q.

Definition premultiply (this q : Quaternion T) : Quaternion T :=
  multiplyQuaternions q this.

Definition conjugate (q : Quaternion T) : Quaternion T :=
  mkQuaternion (qx q * fromZ (-1)) (qy q * fromZ (-1)) (qz q * fromZ (-1)) (qw q).

(** [q.setFromEuler(new THREE.Euler(x, y, z, 'XYZ'))] *)
Definition setFromEulerXYZ (x y z : T) : Quaternion T :=
  let c1 := Math_cos (x / fromZ 2) in
  let c2 := Math_cos (y / fromZ 2) in
  let c3 := Math_cos (z / fromZ 2) in
  let s1 := Math_sin (x / fromZ 2) in
  let s2 := Math_sin (y / fromZ 2) in
  let s3 := Math_sin (z / fromZ 2) in
  mkQuaternion
    (s1 * c2 * c3 + c1 * s2 * s3)
    (c1 * s2 * c3 - s1 * c2 * s3)
    (c1 * c2 * s3 + s1 * s2 * c3)
    (c1 * c2 * c3 - s1 * s2 * s3).

End Methods.
End THREE_Quaternion.

(** The two stores, [headRotation] and [headPan]. *)
Record RotationStore (T : Type) : Type := mkRotationStore {
  headRotation : Quaternion T;
  headPan : Pan T
}.
Arguments mkRotationStore {T} _ _.
Arguments headRotation {T} _.
Arguments headPan {T} _.

Section Rotation.
Context {T : Type} `{Number T} `{Trig T}.
Local Open Scope js_scope.

(** The stores as the module creates them. *)
Definition initialStore : RotationStore T :=
  mkRotationStore THREE.newQuaternion (mkPan (fromZ 0) (fromZ 0)).

(** An incremental rotation in world space: the delta goes in front. *)
Definition applyRotation (axis : Vector3 T) (angle : T) (st : RotationStore T)
  : RotationStore T :=
  let q := headRotation st in
  let deltaQ := THREE_Quaternion.setFromAxisAngle axis angle in
  mkRotationStore
    (THREE_Quaternion.premultiply (THREE_Quaternion.clone q) deltaQ)
    (headPan st).

(** An incremental rotation in head space: the delta goes behind. *)
Definition applyLocalRotation (axis : Vector3 T) (angle : T) (st : RotationStore T)
  : RotationStore T :=
  let q := headRotation st in
  let deltaQ := THREE_Quaternion.setFromAxisAngle axis angle in
  mkRotationStore
    (THREE_Quaternion.multiply (THREE_Quaternion.clone q) deltaQ)
    (headPan st).

Definition resetRotation (st : RotationStore T) : RotationStore T :=
  mkRotationStore THREE.newQuaternion (headPan st).

Definition applyPan (dx dy : T) (st : RotationStore T) : RotationStore T :=
  let p := headPan st in
  mkRotationStore (headRotation st) (mkPan (pan_x p + dx) (pan_y p + dy)).

Definition resetPan (st : RotationStore T) : RotationStore T :=
  mkRotationStore (headRotation st) (mkPan (fromZ 0) (fromZ 0)).

Definition setRotationFromEuler (x y z : T) (st : RotationStore T)
  : RotationStore T :=
  mkRotationStore (THREE_Quaternion.setFromEulerXYZ x y z) (headPan st).

End Rotation.

(** ** components/LoomisHead3D.svelte

    The script of the wireframe component: its helper functions, and
    the derived values that feed them, as functions of the props (the
    same record as [HeadParams]) and of the rotation store's value. *)

Module LoomisHead3D.
Section Script.
Context {T : Type} `{Number T} `{Trig T}.
Local Open Scope js_scope.

(** [const segments = 128] *)
Definition segments : nat := 128.

(** The radius of the horizontal slice of the sphere at height ratio
    [yPos]. *)
Definition getHorizontalCircleRadius (yPos sphereRadius : T) : T :=
  let y := yPos * sphereRadius in
  let rSquared := sphereRadius * sphereRadius - y * y in
  if rSquared >? fromZ 0 then Math_sqrt rSquared else fromZ 0.

(** A horizontal circle of the sphere at height ratio [yRatio];
    [radius] is the prop the function closes over. *)
Definition generateFeatureLine (radius yRatio : T) : list (Vector3 T) :=
  let y := yRatio * radius in
  let circleRadius := getHorizontalCircleRadius yRatio radius in
  if circleRadius <=? fromZ 0 then []
  else circleOnPlane (mkVector3 (fromZ 0) y (fromZ 0))
                     (mkVector3 (fromZ 0) (fromZ 1) (fromZ 0))
                     circleRadius segments.

(** A two-point line cut at [z = 0]. *)
Definition splitLine (p1 p2 : Vector3 T) : FrontBack T :=
  let z1 := vz p1 in
  let z2 := vz p2 in
  if (z1 >=? fromZ 0) && (z2 >=? fromZ 0) then mkFrontBack [[p1; p2]] []
  else if (z1 <? fromZ 0) && (z2 <? fromZ 0) then mkFrontBack [] [[p1; p2]]
  else
    let t := z1 / (z1 - z2) in
    let mid := THREE.lerpVectors p1 p2 t in
    if z1 >=? fromZ 0
    then mkFrontBack [[p1; THREE.clone mid]] [[THREE.clone mid; p2]]
    else mkFrontBack [[THREE.clone mid; p2]] [[p1; THREE.clone mid]].

(** The line from the front of the sphere to the chin; the loop runs
    [i = 0 .. numSegments]. *)
Definition generateChinLinePoints (startY endY startZ endZ : T) (numSegments : nat)
  : list (Vector3 T) :=
  map (fun i : nat =>
         let t := fromZ (Z.of_nat i) / fromZ (Z.of_nat numSegments) in
         let y := startY + t * (endY - startY) in
         let zT := t * t in
         let z := startZ + zT * (endZ - startZ) in
         mkVector3 (fromZ 0) y z)
      (seq 0 (S numSegments)).

(** A parabola in z across the face: [z = baseZ - curveDepth (x / widthHalf)^2]. *)
Definition generateChinCurvePoints (yPos widthHalf curveDepth baseZ : T)
    (numSegments : nat) : list (Vector3 T) :=
  map (fun i : nat =>
         let t := fromZ (Z.of_nat i) / fromZ (Z.of_nat numSegments) in
         let x := - widthHalf + t * fromZ 2 * widthHalf in
         let normalizedX := if widthHalf >? fromZ 0 then x / widthHalf else fromZ 0 in
         let z := baseZ - curveDepth * normalizedX * normalizedX in
         mkVector3 x yPos z)
      (seq 0 (S numSegments)).

(** The default of the [numSegments] parameters. *)
Definition defaultNumSegments : nat := 32.

Section Derived.
Variable params : HeadParams T.
Variable rotation : Quaternion T.

Definition cutDistance : T := sideCut params * radius params.
Definition rimRadius : T := calculateRimRadius (radius params) cutDistance.

Definition eyeLineY : T := eyeLinePos params * radius params.
Definition noseLineY : T := nosePos params * radius params.
Definition mouthLineY : T := mouthPos params * radius params.
Definition eyeWidthHalf : T := eyeWidth params * radius params.
Definition noseWidthHalf : T := noseWidth params * radius params.
Definition mouthWidthHalf : T := mouthWidth params * radius params.

Definition chinY : T := - radius params - chinPos params * radius params.
Definition chinZ : T := radius params - chinLineCurve params * radius params.

Definition chinLinePoints : list (Vector3 T) :=
  generateChinLinePoints (fromZ 0) chinY (radius params) chinZ defaultNumSegments.

Definition chinWidthHalf : T := chinWidth params * radius params.
Definition chinCurveHeight : T := chinCurve params * radius params.

Definition chinCurvePoints : list (Vector3 T) :=
  generateChinCurvePoints chinY chinWidthHalf chinCurveHeight chinZ defaultNumSegments.

(** The component's own copy of the face curve. *)
Definition getFaceCurveZ (yPos : T) : T :=
  if yPos >=? fromZ 0 then radius params
  else
    let t := yPos / chinY in
    let zT := t * t in
    radius params + zT * (chinZ - radius params).

Definition eyeCurveDepth : T := eyeCurve params * radius params.
Definition noseCurveDepth : T := noseCurve params * radius params.
Definition mouthCurveDepth : T := mouthCurve params * radius params.

Definition eyeCurvePoints : list (Vector3 T) :=
  generateChinCurvePoints eyeLineY eyeWidthHalf eyeCurveDepth (getFaceCurveZ eyeLineY)
                          defaultNumSegments.
Definition noseCurvePoints : list (Vector3 T) :=
  generateChinCurvePoints noseLineY noseWidthHalf noseCurveDepth (getFaceCurveZ noseLineY)
                          defaultNumSegments.
Definition mouthCurvePoints : list (Vector3 T) :=
  generateChinCurvePoints mouthLineY mouthWidthHalf mouthCurveDepth
                          (getFaceCurveZ mouthLineY) defaultNumSegments.

Definition jawDropDistance : T := jawDrop params * radius params.
Definition jawWidthDistance : T := jawWidth params * radius params.

Definition leftJawLine : list (Vector3 T) :=
  [ mkVector3 (- cutDistance) (- rimRadius) (fromZ 0);
    mkVector3 (- jawWidthDistance) (- rimRadius - jawDropDistance) (fromZ 0) ].
Definition rightJawLine : list (Vector3 T) :=
  [ mkVector3 cutDistance (- rimRadius) (fromZ 0);
    mkVector3 jawWidthDistance (- rimRadius - jawDropDistance) (fromZ 0) ].

Definition leftRimPoints : list (Vector3 T) :=
  circleOnPlane (mkVector3 (- cutDistance) (fromZ 0) (fromZ 0))
                (mkVector3 (fromZ (-1)) (fromZ 0) (fromZ 0)) rimRadius segments.
Definition rightRimPoints : list (Vector3 T) :=
  circleOnPlane (mkVector3 cutDistance (fromZ 0) (fromZ 0))
                (mkVector3 (fromZ 1) (fromZ 0) (fromZ 0)) rimRadius segments.

(** The centerline and the equator, clipped in head space, rotated, and
    split. *)
Definition centerlinePoints : list (Vector3 T) :=
  circleOnPlane (mkVector3 (fromZ 0) (fromZ 0) (fromZ 0))
                (mkVector3 (fromZ 1) (fromZ 0) (fromZ 0)) (radius params) segments.
Definition centerlineClipped : list (list (Vector3 T)) :=
  clipToSideBand centerlinePoints cutDistance.
Definition equatorPoints : list (Vector3 T) :=
  circleOnPlane (mkVector3 (fromZ 0) (fromZ 0) (fromZ 0))
                (mkVector3 (fromZ 0) (fromZ 1) (fromZ 0)) (radius params) segments.
Definition equatorClipped : list (list (Vector3 T)) :=
  clipToSideBand equatorPoints cutDistance.

Definition hairlinePoints : list (Vector3 T) :=
  generateFeatureLine (radius params) (hairlinePos params).
Definition browPoints : list (Vector3 T) :=
  generateFeatureLine (radius params) (browPos params).

(** Whether the plane of a rim faces the camera. *)
Definition leftRimNormal : Vector3 T :=
  THREE.applyQuaternion (mkVector3 (fromZ (-1)) (fromZ 0) (fromZ 0)) rotation.
Definition rightRimNormal : Vector3 T :=
  THREE.applyQuaternion (mkVector3 (fromZ 1) (fromZ 0) (fromZ 0)) rotation.
Definition leftRimFacesCamera : bool := vz leftRimNormal >? fromZ 0.
Definition rightRimFacesCamera : bool := vz rightRimNormal >? fromZ 0.

End Derived.
End Script.
End LoomisHead3D.

(** ** The page and the trackball

    [Math.min], which only the page uses. *)

Class MathMin (T : Type) : Type := { Math_min : T -> T -> T }.

#[export] Instance MathMin_R : MathMin R := { Math_min := Rmin }.

(** [Math.min] on binary64: NaN if either argument is, and [-0] below [+0]. *)
Definition float_min (a b : float) : float :=
  if (is_nan a || is_nan b)%bool then nan
  else if PrimFloat.ltb a b then a
  else if PrimFloat.ltb b a then b
  else if get_sign a then a else b.

#[export] Instance MathMin_float : MathMin float := { Math_min := float_min }.

(** *** The page ([+page.svelte]): the state its handlers change *)

Module Page.

Inductive ControlMode : Type := canvas | head | image.

Record Preset (T : Type) : Type := mkPreset {
  preset_name : string;
  width : T;
  height : T
}.
Arguments mkPreset {T} _ _ _.
Arguments preset_name {T} _.
Arguments width {T} _.
Arguments height {T} _.

Record State (T : Type) : Type := mkState {
  radius : T;
  imageScale : T;
  canvasZoom : T;
  controlMode : ControlMode;
  backgroundImage : option string;
  imagePos : Pan T;
  selectedPreset : string;
  canvasWidth : T;
  canvasHeight : T;
  customWidth : T;
  customHeight : T
}.
Arguments mkState {T}.
Arguments radius {T} _.
Arguments imageScale {T} _.
Arguments canvasZoom {T} _.
Arguments controlMode {T} _.
Arguments backgroundImage {T} _.
Arguments imagePos {T} _.
Arguments selectedPreset {T} _.
Arguments canvasWidth {T} _.
Arguments canvasHeight {T} _.
Arguments customWidth {T} _.
Arguments customHeight {T} _.

Section Handlers.
Context {T : Type} `{Number T} `{MathMin T} `{Trig T}.
Local Open Scope js_scope.
Local Open Scope string_scope.

Definition canvasPresets : list (Preset T) :=
  [ mkPreset "HD (1920x1080)" (fromZ 1920) (fromZ 1080);
    mkPreset "4K (3840x2160)" (fromZ 3840) (fromZ 2160);
    mkPreset "Square (1080x1080)" (fromZ 1080) (fromZ 1080);
    mkPreset "Portrait (1080x1920)" (fromZ 1080) (fromZ 1920);
    mkPreset "A4 Portrait" (fromZ 2480) (fromZ 3508);
    mkPreset "A4 Landscape" (fromZ 3508) (fromZ 2480);
    mkPreset "Letter Portrait" (fromZ 2550) (fromZ 3300);
    mkPreset "Letter Landscape" (fromZ 3300) (fromZ 2550);
    mkPreset "Custom" (fromZ 0) (fromZ 0) ].

(** A string or null as a condition: null and the empty string fail. *)
Definition isSet (s : option string) : bool :=
  match s with
  | Some s => negb (String.eqb s "")
  | None => false
  end.

Definition selectPreset (presetName : string) (st : State T) : State T :=
  match find (fun p => String.eqb (preset_name p) presetName) canvasPresets with
  | Some preset =>
      if width preset >? fromZ 0 then
        mkState (radius st) (imageScale st) (canvasZoom st) (controlMode st)
                (backgroundImage st) (imagePos st) presetName
                (width preset) (height preset) (width preset) (height preset)
      else
        mkState (radius st) (imageScale st) (canvasZoom st) (controlMode st)
                (backgroundImage st) (imagePos st) presetName
                (canvasWidth st) (canvasHeight st) (customWidth st) (customHeight st)
  | None =>
      mkState (radius st) (imageScale st) (canvasZoom st) (controlMode st)
              (backgroundImage st) (imagePos st) presetName
              (canvasWidth st) (canvasHeight st) (customWidth st) (customHeight st)
  end.

Definition applyCustomSize (st : State T) : State T :=
  mkState (radius st) (imageScale st) (canvasZoom st) (controlMode st)
          (backgroundImage st) (imagePos st) "Custom"
          (customWidth st) (customHeight st) (customWidth st) (customHeight st).

Definition resetImagePos (st : State T) : State T :=
  mkState (radius st) (imageScale st) (canvasZoom st) (controlMode st)
          (backgroundImage st) (mkPan (fromZ 0) (fromZ 0)) (selectedPreset st)
          (canvasWidth st) (canvasHeight st) (customWidth st) (customHeight st).

Definition handleImageDrag (dx dy : T) (st : State T) : State T :=
  if isSet (backgroundImage st) then
    mkState (radius st) (imageScale st) (canvasZoom st) (controlMode st)
            (backgroundImage st)
            (mkPan (pan_x (imagePos st) + dx) (pan_y (imagePos st) + dy))
            (selectedPreset st)
            (canvasWidth st) (canvasHeight st) (customWidth st) (customHeight st)
  else st.

(** The wheel: [deltaY] is the event's. *)
Definition handleWheel (deltaY : T) (st : State T) : State T :=
  let delta := if deltaY >? fromZ 0 then lit 95 2 else lit 105 2 in
  match controlMode st, isSet (backgroundImage st) with
  | head, _ =>
      mkState (Math_max (fromZ 20) (Math_min (fromZ 2000) (radius st * delta)))
              (imageScale st) (canvasZoom st) (controlMode st)
              (backgroundImage st) (imagePos st) (selectedPreset st)
              (canvasWidth st) (canvasHeight st) (customWidth st) (customHeight st)
  | image, true =>
      mkState (radius st)
              (Math_max (lit 1 1) (Math_min (fromZ 10) (imageScale st * delta)))
              (canvasZoom st) (controlMode st)
              (backgroundImage st) (imagePos st) (selectedPreset st)
              (canvasWidth st) (canvasHeight st) (customWidth st) (customHeight st)
  | _, _ =>
      mkState (radius st) (imageScale st)
              (Math_max (lit 1 1) (Math_min (fromZ 2) (canvasZoom st * delta)))
              (controlMode st)
              (backgroundImage st) (imagePos st) (selectedPreset st)
              (canvasWidth st) (canvasHeight st) (customWidth st) (customHeight st)
  end.

(** [const rotationStep = Math.PI / 180] *)
Definition rotationStep : T := Math_PI / fromZ 180.

Definition rotateX (direction : T) : RotationStore T -> RotationStore T :=
  applyRotation (mkVector3 (fromZ 1) (fromZ 0) (fromZ 0)) (direction * rotationStep).
Definition rotateY (direction : T) : RotationStore T -> RotationStore T :=
  applyRotation (mkVector3 (fromZ 0) (fromZ 1) (fromZ 0)) (direction * rotationStep).
Definition rotateZ (direction : T) : RotationStore T -> RotationStore T :=
  applyRotation (mkVector3 (fromZ 0) (fromZ 0) (fromZ 1)) (direction * rotationStep).
Definition rotateLocalX (direction : T) : RotationStore T -> RotationStore T :=
  applyLocalRotation (mkVector3 (fromZ 1) (fromZ 0) (fromZ 0)) (direction * rotationStep).
Definition rotateLocalY (direction : T) : RotationStore T -> RotationStore T :=
  applyLocalRotation (mkVector3 (fromZ 0) (fromZ 1) (fromZ 0)) (direction * rotationStep).
Definition rotateLocalZ (direction : T) : RotationStore T -> RotationStore T :=
  applyLocalRotation (mkVector3 (fromZ 0) (fromZ 0) (fromZ 1)) (direction * rotationStep).

End Handlers.
End Page.

(** *** TrackballControls.svelte

    The component's variables, and its pointer handlers as changes of
    these variables, of the rotation store, and of whatever the
    [onImageDrag] prop acts on.  (Pointer capture, a matter between the
    handlers and the browser, is not part of the state.) *)

Module Trackball.

Record PointerEvent (T : Type) : Type := mkPointerEvent {
  clientX : T;
  clientY : T;
  button : Z;
  shiftKey : bool
}.
Arguments mkPointerEvent {T} _ _ _ _.
Arguments clientX {T} _.
Arguments clientY {T} _.
Arguments button {T} _.
Arguments shiftKey {T} _.

Record State (T : Type) : Type := mkState {
  isDragging : bool;
  isPanning : bool;
  isImageDragging : bool;
  lastX : T;
  lastY : T
}.
Arguments mkState {T} _ _ _ _ _.
Arguments isDragging {T} _.
Arguments isPanning {T} _.
Arguments isImageDragging {T} _.
Arguments lastX {T} _.
Arguments lastY {T} _.

Section Handlers.
Context {T : Type} `{Number T} `{Trig T}.
Local Open Scope js_scope.

(** What the [onImageDrag] prop acts on, and the prop, which may be
    left out. *)
Variable Outside : Type.
Variable onImageDrag : option (T -> T -> Outside -> Outside).
Variable controlMode : Page.ControlMode.

Definition initialState : State T := mkState false false false (fromZ 0) (fromZ 0).

Definition rotationSpeed : T := lit 1 2.
Definition panSpeed : T := fromZ 1.

Definition hasOnImageDrag : bool :=
  match onImageDrag with Some _ => true | None => false end.

Definition handlePointerDown (e : PointerEvent T) (st : State T) : State T :=
  match controlMode with
  | Page.image => mkState true false hasOnImageDrag (clientX e) (clientY e)
  | _ =>
      mkState true (negb (button e =? 2)%Z && negb (shiftKey e)) false
              (clientX e) (clientY e)
  end.

Definition handlePointerMove (e : PointerEvent T)
    (w : State T * RotationStore T * Outside) : State T * RotationStore T * Outside :=
  let '(st, store, outside) := w in
  if negb (isDragging st) then w
  else
    let deltaX := clientX e - lastX st in
    let deltaY := clientY e - lastY st in
    let st' := mkState (isDragging st) (isPanning st) (isImageDragging st)
                       (clientX e) (clientY e) in
    match isImageDragging st, onImageDrag with
    | true, Some drag => (st', store, drag deltaX deltaY outside)
    | _, _ =>
        if isPanning st then
          (st', applyPan (deltaX * panSpeed) (- deltaY * panSpeed) store, outside)
        else
          let store1 :=
            if Math_abs deltaX >? fromZ 0
            then applyRotation (mkVector3 (fromZ 0) (fromZ 1) (fromZ 0))
                               (deltaX * rotationSpeed) store
            else store in
          let store2 :=
            if Math_abs deltaY >? fromZ 0
            then applyRotation (mkVector3 (fromZ 1) (fromZ 0) (fromZ 0))
                               (deltaY * rotationSpeed) store1
            else store1 in
          (st', store2, outside)
    end.

Definition handlePointerUp (st : State T) : State T :=
  mkState false false false (lastX st) (lastY st).

(** A drag: the pointer goes down, moves, and may go on moving. *)
Definition drag (down : PointerEvent T) (moves : list (PointerEvent T))
    (w : State T * RotationStore T * Outside) : State T * RotationStore T * Outside :=
  let '(st, store, outside) := w in
  fold_left (fun w e => handlePointerMove e w) moves
            (handlePointerDown down st, store, outside).

End Handlers.
End Trackball.

(** ** Vectors in exact arithmetic *)

Definition dot (a b : Vector3 R) : R :=
  (vx a * vx b + vy a * vy b + vz a * vz b)%R.

Definition minus (a b : Vector3 R) : Vector3 R :=
  mkVector3 (vx a - vx b)%R (vy a - vy b)%R (vz a - vz b)%R.

(** The square of the distance of two points. *)
Definition dist2 (a b : Vector3 R) : R := dot (minus a b) (minus a b).

(** [p] is on the segment from [a] to [b]. *)
Definition between (a b p : Vector3 R) : Prop :=
  exists t : R, (0 <= t <= 1)%R /\ p = THREE.lerpVectors a b t.

(** [|x| <= d + EPS], the band of the clipper. *)
Definition inBand (d : R) (p : Vector3 R) : Prop := (Rabs (vx p) <= d + EPS)%R.

(** The position of the landmark of a name. *)
Definition landmarkPosition {T} `{Number T} (n : string) (ls : list (Landmark T))
  : option (Vector3 T) :=
  option_map position (findLandmark n ls).

(** A projected landmark moved by a whole number of pixels. *)
Definition shiftProjected (dx dy : Z) (pl : ProjectedLandmark R) : ProjectedLandmark R :=
  mkProjectedLandmark (pname pl) (px pl + IZR dx)%R (py pl + IZR dy)%R (visible pl).

(** A rendered feature curve and the three landmarks of a feature: the
    curve starts at the left landmark, passes the centre landmark half
    way, and ends at the right landmark. *)
Definition curveThrough (curve : list (Vector3 R)) (ls : list (Landmark R))
    (left center right : string) : Prop :=
  nth_error curve 0 = landmarkPosition left ls
  /\ nth_error curve 16 = landmarkPosition center ls
  /\ nth_error curve 32 = landmarkPosition right ls.

(** The orientation in the store is a rotation. *)
Definition unitStore (st : RotationStore R) : Prop := unitQuaternion (headRotation st).

(** Rotations about the axes by an angle, as matrices have them. *)
Definition turnX (a : R) (p : Vector3 R) : Vector3 R :=
  mkVector3 (vx p) (vy p * cos a - vz p * sin a)%R (vy p * sin a + vz p * cos a)%R.

Definition turnY (a : R) (p : Vector3 R) : Vector3 R :=
  mkVector3 (vx p * cos a + vz p * sin a)%R (vy p) (vz p * cos a - vx p * sin a)%R.

Definition turnZ (a : R) (p : Vector3 R) : Vector3 R :=
  mkVector3 (vx p * cos a - vy p * sin a)%R (vx p * sin a + vy p * cos a)%R (vz p).

(** Pointer moves, one after the other. *)
Definition pointerMoves {T} `{Number T} `{Trig T} (Outside : Type)
    (onImageDrag : option (T -> T -> Outside -> Outside))
    (moves : list (Trackball.PointerEvent T))
    (w : Trackball.State T * RotationStore T * Outside)
  : Trackball.State T * RotationStore T * Outside :=
  fold_left (fun w e => Trackball.handlePointerMove Outside onImageDrag e w) moves w.

(** The calls of [onImageDrag] that a list of moves makes, starting from
    the pointer position [(x, y)]. *)
Fixpoint imageDrags {T} `{Number T} {Outside : Type} (drag : T -> T -> Outside -> Outside)
    (x y : T) (moves : list (Trackball.PointerEvent T)) (outside : Outside) : Outside :=
  match moves with
  | [] => outside
  | e :: rest =>
      imageDrags drag (Trackball.clientX e) (Trackball.clientY e) rest
                 (drag (Trackball.clientX e - x)%js (Trackball.clientY e - y)%js outside)
  end.

(** Where the pointer is after a list of moves, having been at [(x, y)]. *)
Definition lastPosition {T} (x y : T) (moves : list (Trackball.PointerEvent T)) : T * T :=
  fold_left (fun _ e => (Trackball.clientX e, Trackball.clientY e)) moves (x, y).

(** * Properties

    ** The two number models *)

Module RealFacts.
Import RealNumber.

Lemma Rleb_true a b : Rleb a b = true <-> (a <= b)%R.
Proof. unfold Rleb; destruct (Rle_dec a b); split; intros; auto; discriminate. Qed.

Lemma Rleb_false a b : Rleb a b = false <-> (b < a)%R.
Proof.
  unfold Rleb; destruct (Rle_dec a b); split; intros; auto; try discriminate; lra.
Qed.

Lemma Rltb_true a b : Rltb a b = true <-> (a < b)%R.
Proof. unfold Rltb; destruct (Rlt_dec a b); split; intros; auto; discriminate. Qed.

Lemma Rltb_false a b : Rltb a b = false <-> (b <= a)%R.
Proof.
  unfold Rltb; destruct (Rlt_dec a b); split; intros; auto; try discriminate; lra.
Qed.

Lemma Rround_IZR (z : Z) : Rround (IZR z) = IZR z.
Proof.
  unfold Rround, Int_part. f_equal.
  assert (up (IZR z + / 2) = (z + 1)%Z); [|lia].
  symmetry; apply tech_up; rewrite plus_IZR; lra.
Qed.

Lemma Rtruthy_true x : x <> 0%R -> Rtruthy x = true.
Proof. unfold Rtruthy; destruct (Req_dec_T x 0); intros; congruence. Qed.

End RealFacts.

#[export] Instance NumberOrder_R : NumberOrder R.
Proof.
  constructor; intros a b; cbn.
  rewrite RealFacts.Rltb_true, RealFacts.Rleb_false; auto.
Qed.

#[export] Instance NumberOrder_float : NumberOrder float.
Proof.
  constructor; intros a b; cbn.
  rewrite ltb_spec, leb_spec. unfold SFltb, SFleb.
  destruct (Prim2SF a) as [[|]|[|]| |[|] ma ea];
    destruct (Prim2SF b) as [[|]|[|]| |[|] mb eb]; cbn; try congruence;
    change (Pos.compare_cont Eq mb ma) with (Pos.compare mb ma);
    change (Pos.compare_cont Eq ma mb) with (Pos.compare ma mb);
    rewrite (Z.compare_antisym ea eb), (Pos.compare_antisym ma mb);
    destruct (ea ?= eb)%Z, (ma ?= mb)%positive; cbn; congruence.
Qed.


(** ** The landmark list *)

Lemma NoDup_landmark_names : NoDup (map fst landmarkTable).
Proof.
  unfold landmarkTable; cbn [map fst].
  repeat (constructor; [cbn [In]; intuition discriminate|]).
  constructor.
Qed.

Section LandmarkFacts.
Context {T : Type} `{Number T}.

Lemma calculateLandmarks_table (params : HeadParams T) :
  map (fun l => (name l, color l)) (calculateLandmarks params)
  = map (fun nc => (fst nc, Some (snd nc))) landmarkTable.
Proof. reflexivity. Qed.

Lemma calculateLandmarks_names (params : HeadParams T) :
  map name (calculateLandmarks params) = map fst landmarkTable.
Proof. reflexivity. Qed.

Lemma transformLandmarks_length ls rotation (pan : Pan T) :
  List.length (transformLandmarks ls rotation pan) = List.length ls.
Proof. apply length_map. Qed.

Lemma projectLandmarks_length (ls : list (Landmark T)) w h :
  List.length (projectLandmarks ls w h) = List.length ls.
Proof. apply length_map. Qed.

End LandmarkFacts.

(** C1, as the code has it: for every [HeadParams], in every number
    model, [calculateLandmarks] returns the same ordered list of exactly
    20 landmarks (not 21): their names and colours are those of
    [landmarkTable], in that order, and no name occurs twice. *)
Theorem calculateLandmarks_fixed_list :
  forall (T : Type) (N : Number T) (params : HeadParams T),
    map (fun l => (name l, color l)) (calculateLandmarks params)
    = map (fun nc => (fst nc, Some (snd nc))) landmarkTable
    /\ List.length (calculateLandmarks params) = 20%nat
    /\ NoDup (map name (calculateLandmarks params)).
Proof.
  intros T N params. split; [apply calculateLandmarks_table|].
  split; [reflexivity|].
  rewrite calculateLandmarks_names. apply NoDup_landmark_names.
Qed.

(** C1 as stated fails: on the scene's defaults with radius 100 the list
    does not have 21 landmarks. *)
Lemma calculateLandmarks_not_21 :
  List.length (calculateLandmarks (sceneDefaults 100%float)) <> 21%nat.
Proof. cbn. discriminate. Qed.

(** C9: for every [HeadParams], in every number model, each of the
    features Eye, Nose, Mouth, Chin, Jaw Start and Jaw Drop has a Left
    and a Right landmark, and the Left position is the Right position
    with its x negated: same y, same z. *)
Theorem left_right_mirrored :
  forall (T : Type) (N : Number T) (params : HeadParams T),
    Forall (fun feature : string =>
              exists l r : Landmark T,
                findLandmark (feature ++ " Left") (calculateLandmarks params) = Some l
                /\ findLandmark (feature ++ " Right") (calculateLandmarks params) = Some r
                /\ position l = mirrorX (position r))
           pairedFeatures.
Proof.
  intros T N params. unfold pairedFeatures.
  repeat (constructor; [eexists; eexists; repeat split; reflexivity|]).
  constructor.
Qed.

(** ** The rim radius of the jaw landmarks *)

(** C2 fails on the code: with [sideCut = 2] (and the scene's defaults,
    radius 100) [calculateLandmarks] takes the square root of the
    negative [radius^2 - cutDistance^2] as it is, and the y of the four
    jaw landmarks is NaN; [calculateRimRadius], which the renderer calls
    on the same two numbers, clamps and returns 0. *)
Theorem jaw_landmarks_nan_sideCut_2 :
  let params : HeadParams float := withSideCut 2%float (sceneDefaults 100%float) in
  (sideCut params >? fromZ 1)%js = true
  /\ nanLandmarks (calculateLandmarks params)
     = [ "Jaw Start Left"; "Jaw Start Right"; "Jaw Drop Left"; "Jaw Drop Right" ]%string
  /\ calculateRimRadius (radius params) (sideCut params * radius params)%js = 0%float.
Proof. vm_compute. repeat split; reflexivity. Qed.

(** ** The pipeline on the crown *)

Lemma crown_position {T : Type} `{Number T} (params : HeadParams T) :
  findLandmark "Crown" (calculateLandmarks params)
  = Some (mkLandmark "Crown" (mkVector3 (fromZ 0) (radius params) (fromZ 0))
                     (Some "#4ecdc4"%string)).
Proof. reflexivity. Qed.

Lemma crown_projected_R (params : HeadParams R) :
  findProjected "Crown"
    (landmarksUpdate (withRadius 100%R params) THREE.newQuaternion
                     (mkPan 0%R 0%R) 1920%R 1080%R)
  = Some (mkProjectedLandmark "Crown" 960%R 440%R true).
Proof.
  cbv [landmarksUpdate projectLandmarks transformLandmarks calculateLandmarks
       findProjected map].
  cbn [find pname String.eqb Ascii.eqb Bool.eqb andb name position color].
  cbv [THREE.addVector THREE.applyQuaternion THREE.clone THREE.newQuaternion
       withRadius radius vx vy vz qx qy qz qw pan_x pan_y
       fromZ add sub mul div leb Math_round Number_R].
  f_equal. f_equal.
  - replace (1920 / 2 + _)%R with (IZR 960) by lra. apply RealFacts.Rround_IZR.
  - replace (1080 / 2 - _)%R with (IZR 440) by lra. apply RealFacts.Rround_IZR.
  - apply RealFacts.Rleb_true. lra.
Qed.

(** C3: the Crown landmark of [calculateLandmarks] is at
    [(0, radius, 0)] for every [HeadParams]; run in binary64 on the
    scene's defaults with radius 100 and on the page's initial
    parameters (radius 100), with the identity rotation, pan [(0, 0)]
    and a 1920 x 1080 canvas, the pipeline calculateLandmarks,
    transformLandmarks, projectLandmarks gives Crown at x = 960,
    y = 440, visible; and in exact arithmetic it does so for every
    parameter record of radius 100. *)
Theorem crown_end_to_end :
  (forall (T : Type) (N : Number T) (params : HeadParams T),
      option_map position (findLandmark "Crown" (calculateLandmarks params))
      = Some (mkVector3 (fromZ 0) (radius params) (fromZ 0)))
  /\ findProjected "Crown"
       (landmarksUpdate (sceneDefaults 100%float) THREE.newQuaternion
                        (mkPan 0%float 0%float) 1920%float 1080%float)
     = Some (mkProjectedLandmark "Crown" 960%float 440%float true)
  /\ findProjected "Crown"
       (landmarksUpdate (pageDefaults : HeadParams float) THREE.newQuaternion
                        (mkPan 0%float 0%float) 1920%float 1080%float)
     = Some (mkProjectedLandmark "Crown" 960%float 440%float true)
  /\ (forall params : HeadParams R,
        findProjected "Crown"
          (landmarksUpdate (withRadius 100%R params) THREE.newQuaternion
                           (mkPan 0%R 0%R) 1920%R 1080%R)
        = Some (mkProjectedLandmark "Crown" 960%R 440%R true)).
Proof.
  split; [intros; rewrite crown_position; reflexivity|].
  split; [vm_compute; reflexivity|].
  split; [vm_compute; reflexivity|].
  exact crown_projected_R.
Qed.

(** ** splitFrontBack *)

Lemma alternate_cons {A : Type} (xs ys : list A) (x : A) :
  alternate (x :: xs) ys = x :: alternate ys xs.
Proof.
  revert ys x. induction xs as [|z xs IH]; intros ys x.
  - destruct ys; reflexivity.
  - destruct ys as [|y ys]; [reflexivity|].
    cbn [alternate]. do 2 f_equal. apply (IH ys z).
Qed.

Lemma nonEmpty_false {A : Type} (xs : list A) : nonEmpty xs = false -> xs = [].
Proof. destruct xs; [reflexivity|discriminate]. Qed.

Lemma nonEmpty_true {A : Type} (xs : list A) : xs <> [] -> nonEmpty xs = true.
Proof. destruct xs; [congruence|reflexivity]. Qed.

Lemma nonEmpty_snoc {A : Type} (xs : list A) (x : A) : nonEmpty (xs ++ [x]) = true.
Proof. apply nonEmpty_true. destruct xs; discriminate. Qed.

Section SplitFacts.
Context {T : Type} `{Number T}.
Local Open Scope list_scope.

Local Abbreviation run := (list (Vector3 T)).

(** The runs already closed are only ever extended. *)
Lemma splitLoop_closed (points : run) :
  forall (f b : list run) (cf cb : run),
    splitLoop points f b cf cb
    = mkFrontBack (f ++ front (splitLoop points [] [] cf cb))
                  (b ++ back (splitLoop points [] [] cf cb)).
Proof.
  induction points as [|p rest IH]; intros f b cf cb; cbn [splitLoop].
  - destruct (nonEmpty cf), (nonEmpty cb); cbn [front back];
      rewrite ?app_nil_r; reflexivity.
  - destruct (isFront p).
    + destruct (nonEmpty cb).
      * rewrite (IH f (b ++ [cb])), (IH [] ([] ++ [cb])). cbn [front back app].
        rewrite <- app_assoc. reflexivity.
      * apply IH.
    + destruct (nonEmpty cf).
      * rewrite (IH (f ++ [cf]) b), (IH ([] ++ [cf]) []). cbn [front back app].
        rewrite <- app_assoc. reflexivity.
      * apply IH.
Qed.

Lemma concat_snoc (l : list run) (r : run) : List.concat (l ++ [r]) = List.concat l ++ r.
Proof. rewrite concat_app. cbn. rewrite app_nil_r. reflexivity. Qed.

(** The front runs, end to end, are the front points in their order. *)
Lemma splitLoop_front (points : run) :
  forall (f b : list run) (cf cb : run),
    List.concat (front (splitLoop points f b cf cb))
    = List.concat f ++ cf ++ filter isFront points.
Proof.
  induction points as [|p rest IH]; intros f b cf cb; cbn [splitLoop filter].
  - cbn [front]. destruct (nonEmpty cf) eqn:E.
    + rewrite concat_snoc, app_nil_r. reflexivity.
    + rewrite (nonEmpty_false _ E), app_nil_r. reflexivity.
  - destruct (isFront p).
    + destruct (nonEmpty cb); rewrite IH, <- app_assoc; reflexivity.
    + destruct (nonEmpty cf) eqn:E; rewrite IH.
      * rewrite concat_snoc, <- app_assoc. reflexivity.
      * reflexivity.
Qed.

Lemma splitLoop_back (points : run) :
  forall (f b : list run) (cf cb : run),
    List.concat (back (splitLoop points f b cf cb))
    = List.concat b ++ cb ++ filter (fun p => negb (isFront p)) points.
Proof.
  induction points as [|p rest IH]; intros f b cf cb; cbn [splitLoop filter].
  - cbn [back]. destruct (nonEmpty cb) eqn:E.
    + rewrite concat_snoc, app_nil_r. reflexivity.
    + rewrite (nonEmpty_false _ E), app_nil_r. reflexivity.
  - destruct (isFront p); cbn [negb].
    + destruct (nonEmpty cb) eqn:E; rewrite IH.
      * rewrite concat_snoc, <- app_assoc. reflexivity.
      * reflexivity.
    + destruct (nonEmpty cf); rewrite IH, <- app_assoc; reflexivity.
Qed.

(** No run is empty. *)
Lemma splitLoop_nonempty (points : run) :
  forall (f b : list run) (cf cb : run),
    Forall (fun r => r <> []) f -> Forall (fun r => r <> []) b ->
    Forall (fun r => r <> []) (front (splitLoop points f b cf cb))
    /\ Forall (fun r => r <> []) (back (splitLoop points f b cf cb)).
Proof.
  assert (push : forall (l : list run) (c : run),
             Forall (fun r => r <> []) l -> nonEmpty c = true ->
             Forall (fun r => r <> []) (l ++ [c])).
  { intros l c Hl Hc. apply Forall_app; split; [exact Hl|].
    constructor; [|constructor]. intros ->. discriminate. }
  induction points as [|p rest IH]; intros f b cf cb Hf Hb; cbn [splitLoop].
  - cbn [front back].
    destruct (nonEmpty cf) eqn:Ef, (nonEmpty cb) eqn:Eb; split; auto.
  - destruct (isFront p).
    + destruct (nonEmpty cb) eqn:E; apply IH; auto.
    + destruct (nonEmpty cf) eqn:E; apply IH; auto.
Qed.

(** Putting the runs back in turn gives the open run and the points
    still to come. *)
Lemma splitLoop_alternate (points : run) :
  forall cf cb : run,
    let r := splitLoop points [] [] cf cb in
    (cb = [] -> cf <> [] \/ startsWith true points ->
     List.concat (alternate (front r) (back r)) = cf ++ points)
    /\ (cf = [] -> cb <> [] \/ startsWith false points ->
        List.concat (alternate (back r) (front r)) = cb ++ points).
Proof.
  induction points as [|p rest IH]; intros cf cb; cbn zeta.
  - cbn [splitLoop front back app]. split; intros -> _.
    + destruct (nonEmpty cf) eqn:E; cbn; [reflexivity|].
      rewrite (nonEmpty_false _ E). reflexivity.
    + destruct (nonEmpty cb) eqn:E; cbn; [reflexivity|].
      rewrite (nonEmpty_false _ E). reflexivity.
  - cbn [splitLoop]. destruct (isFront p) eqn:Ep.
    + split.
      * intros -> _. change (nonEmpty (@nil (Vector3 T))) with false. cbn iota.
        destruct (IH (cf ++ [p]) []) as [IH1 _].
        rewrite IH1; [rewrite <- app_assoc; reflexivity|reflexivity|].
        left. destruct cf; discriminate.
      * intros -> [Hcb|Hs]; [|cbn in Hs; congruence].
        rewrite (nonEmpty_true _ Hcb), splitLoop_closed. cbn [front back app].
        rewrite alternate_cons. cbn [List.concat].
        destruct (IH [p] []) as [IH1 _].
        rewrite IH1; [reflexivity|reflexivity|left; discriminate].
    + split.
      * intros -> [Hcf|Hs]; [|cbn in Hs; congruence].
        rewrite (nonEmpty_true _ Hcf), splitLoop_closed. cbn [front back app].
        rewrite alternate_cons. cbn [List.concat].
        destruct (IH [] [p]) as [_ IH2].
        rewrite IH2; [reflexivity|reflexivity|left; discriminate].
      * intros -> _. change (nonEmpty (@nil (Vector3 T))) with false. cbn iota.
        destruct (IH [] (cb ++ [p])) as [_ IH2].
        rewrite IH2; [rewrite <- app_assoc; reflexivity|reflexivity|].
        left. destruct cb; discriminate.
Qed.

Lemma splitFrontBack_in_order (points : run) :
  List.concat (runsInOrder points (splitFrontBack points)) = points.
Proof.
  unfold runsInOrder, splitFrontBack.
  destruct points as [|p rest]; [reflexivity|].
  destruct (splitLoop_alternate (p :: rest) [] []) as [H1 H2].
  destruct (isFront p) eqn:Ep.
  - apply H1; [reflexivity|]. right. exact Ep.
  - apply H2; [reflexivity|]. right. exact Ep.
Qed.

End SplitFacts.

Lemma filter_negb_length {A : Type} (f : A -> bool) (l : list A) :
  (List.length (filter f l) + List.length (filter (fun a => negb (f a)) l)
   = List.length l)%nat.
Proof.
  induction l as [|a l IH]; [reflexivity|].
  cbn [filter]. destruct (f a); cbn [negb List.length]; lia.
Qed.

(** C4: for every sequence of points, in every number model:
    the front runs of [splitFrontBack], end to end, are the points with
    [z >= 0] in their order, and the back runs the others, among them
    every point with [z < 0]; so each point with [z >= 0] is in a front
    run, each point with [z < 0] in a back run, and a run holds points of
    its class only; the runs taken in their original order (front and
    back runs in turn, starting on the side of the first point) give
    back exactly the input sequence, no point added at a sign change;
    the point counts add up to the input length; no run is empty. *)
Theorem splitFrontBack_partition :
  forall (T : Type) (N : Number T) (O : NumberOrder T) (points : list (Vector3 T)),
    let r := splitFrontBack points in
    List.concat (front r) = filter (fun p => vz p >=? fromZ 0)%js points
    /\ List.concat (back r) = filter (fun p => negb (vz p >=? fromZ 0)%js) points
    /\ (forall p, In p points -> (vz p >=? fromZ 0)%js = true ->
                  exists run, In run (front r) /\ In p run)
    /\ (forall p, In p points -> (vz p <? fromZ 0)%js = true ->
                  exists run, In run (back r) /\ In p run)
    /\ Forall (Forall (fun p => (vz p >=? fromZ 0)%js = true)) (front r)
    /\ Forall (Forall (fun p => (vz p >=? fromZ 0)%js = false)) (back r)
    /\ List.concat (runsInOrder points r) = points
    /\ (List.length (List.concat (front r)) + List.length (List.concat (back r))
        = List.length points)%nat
    /\ Forall (fun run => run <> []) (front r ++ back r).
Proof.
  intros T N O points r.
  assert (Hf : List.concat (front r) = filter isFront points).
  { unfold r, splitFrontBack. rewrite splitLoop_front. reflexivity. }
  assert (Hb : List.concat (back r) = filter (fun p => negb (isFront p)) points).
  { unfold r, splitFrontBack. rewrite splitLoop_back. reflexivity. }
  split; [exact Hf|]. split; [exact Hb|].
  split.
  { intros p Hin Hz. apply in_concat. rewrite Hf. apply filter_In. auto. }
  split.
  { intros p Hin Hz. apply in_concat. rewrite Hb. apply filter_In.
    split; [exact Hin|]. unfold isFront. rewrite (ltb_not_geb _ _ Hz). reflexivity. }
  split.
  { apply Forall_concat. rewrite Hf. apply Forall_forall.
    intros p Hp. apply filter_In in Hp. apply Hp. }
  split.
  { apply Forall_concat. rewrite Hb. apply Forall_forall.
    intros p Hp. apply filter_In in Hp. destruct Hp as [_ Hp].
    apply negb_true_iff in Hp. exact Hp. }
  split; [apply splitFrontBack_in_order|].
  split; [rewrite Hf, Hb; apply filter_negb_length|].
  apply Forall_app. apply splitLoop_nonempty; constructor.
Qed.

(** The theorem on three points that change side twice. *)
Lemma splitFrontBack_partition_witness :
  let points := [ mkVector3 0 0 1; mkVector3 0 0 (-1); mkVector3 0 0 2 ]%float in
  let r := splitFrontBack points in
  front r = [ [mkVector3 0 0 1]; [mkVector3 0 0 2] ]%float
  /\ back r = [ [mkVector3 0 0 (-1)] ]%float
  /\ List.concat (runsInOrder points r) = points.
Proof.
  intros points r. split; [reflexivity|]. split; [reflexivity|].
  apply (splitFrontBack_partition float Number_float NumberOrder_float points).
Defined.

(** ** clipToSideBand *)

Section ClipFacts.
Context {T : Type} `{Number T}.
Local Open Scope list_scope.

Local Abbreviation segment := (list (Vector3 T)).

Lemma push_longEnough (segments : list segment) (s : segment) :
  Forall longEnough segments ->
  Forall longEnough
    (if (2 <=? List.length s)%nat then segments ++ [s] else segments).
Proof.
  intros Hs. destruct (2 <=? List.length s)%nat eqn:E; [|exact Hs].
  apply Forall_app; split; [exact Hs|].
  constructor; [|constructor]. apply Nat.leb_le. exact E.
Qed.

Lemma push_pair_longEnough (segments : list segment) (a b : Vector3 T) :
  Forall longEnough segments -> Forall longEnough (segments ++ [[a; b]]).
Proof.
  intros Hs. apply Forall_app; split; [exact Hs|].
  constructor; [|constructor]. unfold longEnough. cbn. lia.
Qed.

(** One turn of the loop only closes segments of two points or more. *)
Lemma clipStep_longEnough (d : T) (prev curr : Vector3 T)
    (segments : list segment) (currentSegment : segment) :
  Forall longEnough segments ->
  Forall longEnough (fst (clipStep d prev curr segments currentSegment)).
Proof.
  intros Hs. unfold clipStep.
  destruct (isInside d prev), (isInside d curr); cbn [andb negb fst].
  - exact Hs.
  - apply push_longEnough. exact Hs.
  - destruct (intersectX prev curr _); exact Hs.
  - destruct (_ || _); [|exact Hs].
    destruct (intersectX prev curr (- d)%js); [|exact Hs].
    destruct (intersectX prev curr d); [|exact Hs].
    destruct (vx prev <? vx curr)%js; cbn [fst];
      apply push_pair_longEnough; exact Hs.
Qed.

Lemma clipLoop_longEnough (d : T) (points : segment) :
  forall (prev : Vector3 T) (segments : list segment) (currentSegment : segment),
    Forall longEnough segments ->
    Forall longEnough (clipLoop d prev points segments currentSegment).
Proof.
  induction points as [|curr rest IH]; intros prev segments currentSegment Hs;
    cbn [clipLoop].
  - apply push_longEnough. exact Hs.
  - pose proof (clipStep_longEnough d prev curr segments currentSegment Hs) as Hstep.
    destruct (clipStep d prev curr segments currentSegment) as [segments' current'].
    apply IH. exact Hstep.
Qed.

End ClipFacts.

(** C6: for every list of points and every [d] (non-negative or not),
    in every number model, each segment that [clipToSideBand] returns
    has at least 2 points. *)
Theorem clipToSideBand_segments_two_points :
  forall (T : Type) (N : Number T) (points : list (Vector3 T)) (d : T),
    Forall (fun segment => (2 <= List.length segment)%nat) (clipToSideBand points d).
Proof.
  intros T N points d. unfold clipToSideBand.
  destruct (List.length points <? 2)%nat; [constructor|].
  destruct points as [|first rest]; [constructor|].
  apply (clipLoop_longEnough d rest first). constructor.
Qed.

(** *** A band as wide as the polyline *)

Section ClipWide.
Local Open Scope R_scope.

Lemma EPS_R_pos : 0 < (EPS : R).
Proof.
  unfold EPS, lit. cbn [fromZ div Number_R].
  apply Rdiv_lt_0_compat; apply IZR_lt; reflexivity.
Qed.

Lemma isInside_R (d : R) (p : Vector3 R) : Rabs (vx p) <= d -> isInside d p = true.
Proof.
  intros Hp. unfold isInside. cbn [leb add Math_abs Number_R].
  apply RealFacts.Rleb_true. pose proof EPS_R_pos. lra.
Qed.

Lemma maxAbsX_Forall (points : list (Vector3 R)) (d : R) :
  maxAbsX points <= d -> Forall (fun p => Rabs (vx p) <= d) points.
Proof.
  induction points as [|p rest IH]; intros Hmax; [constructor|].
  cbn [maxAbsX fold_right] in Hmax. fold (maxAbsX rest) in Hmax.
  constructor.
  - eapply Rle_trans; [apply Rmax_l|exact Hmax].
  - apply IH. eapply Rle_trans; [apply Rmax_r|exact Hmax].
Qed.

(** With every point inside, the loop keeps extending the one segment. *)
Lemma clipLoop_all_inside (d : R) (points : list (Vector3 R)) :
  forall (prev : Vector3 R) (currentSegment : list (Vector3 R)),
    isInside d prev = true ->
    Forall (fun p => isInside d p = true) points ->
    (2 <= List.length (currentSegment ++ points))%nat ->
    clipLoop d prev points [] currentSegment = [currentSegment ++ points].
Proof.
  induction points as [|curr rest IH]; intros prev current Hprev Hall Hlen;
    cbn [clipLoop].
  - rewrite app_nil_r in *. apply Nat.leb_le in Hlen. rewrite Hlen. reflexivity.
  - inversion Hall as [|? ? Hcurr Hrest]; subst.
    unfold clipStep. rewrite Hprev, Hcurr. cbn [andb].
    rewrite (IH curr (current ++ [THREE.clone curr]) Hcurr Hrest).
    + rewrite <- app_assoc. reflexivity.
    + rewrite <- app_assoc. exact Hlen.
Qed.

End ClipWide.

(** C5: in exact arithmetic, for every list of at least 2 points and
    every [d] not below the maximum of [|x|] over the points,
    [clipToSideBand points d] is the one segment [points], every point
    kept and none added. *)
Theorem clipToSideBand_wide_band :
  forall (points : list (Vector3 R)) (d : R),
    (2 <= List.length points)%nat ->
    (maxAbsX points <= d)%R ->
    clipToSideBand points d = [points].
Proof.
  intros points d Hlen Hmax.
  apply maxAbsX_Forall in Hmax.
  assert (Hall : Forall (fun p => isInside d p = true) points).
  { eapply Forall_impl; [|exact Hmax]. intros p Hp. apply isInside_R. exact Hp. }
  unfold clipToSideBand.
  destruct (List.length points <? 2)%nat eqn:E; [apply Nat.ltb_lt in E; lia|].
  destruct points as [|first rest]; [cbn in Hlen; lia|].
  inversion Hall as [|? ? Hfirst Hrest]; subst.
  rewrite Hfirst. apply clipLoop_all_inside; assumption.
Qed.

(** The theorem on a closed triangle: the closing point is kept. *)
Lemma clipToSideBand_wide_band_witness :
  let points := [ mkVector3 0 0 0; mkVector3 1 0 0; mkVector3 (-1) 1 0;
                  mkVector3 0 0 0 ]%R in
  clipToSideBand points 1%R = [points].
Proof.
  intros points. apply clipToSideBand_wide_band.
  - cbn. lia.
  - unfold points, maxAbsX. cbn [fold_right vx].
    unfold Rabs. repeat destruct Rcase_abs; repeat apply Rmax_lub; lra.
Defined.

(** ** circleOnPlane *)

Section CircleFacts.
Local Open Scope R_scope.

Lemma Vector3_eq (a b c a' b' c' : R) :
  a = a' -> b = b' -> c = c' -> mkVector3 a b c = mkVector3 a' b' c'.
Proof. intros -> -> ->. reflexivity. Qed.

(** A vector of length 1 is its own normalization. *)
Lemma normalize_unit (v : Vector3 R) :
  vx v * vx v + vy v * vy v + vz v * vz v = 1 -> THREE.normalize v = v.
Proof.
  intros Hv. unfold THREE.normalize, THREE.length.
  cbn [add mul Math_sqrt truthy fromZ Number_R]. rewrite Hv, sqrt_1.
  rewrite RealFacts.Rtruthy_true by lra.
  unfold THREE.divideScalar, THREE.multiplyScalar. cbn [mul div fromZ Number_R].
  destruct v as [a b c]. cbn [vx vy vz]. apply Vector3_eq; field.
Qed.

Lemma basisFromNormal_Z :
  basisFromNormal (mkVector3 0 0 1) = (mkVector3 0 1 0, mkVector3 (-1) 0 0).
Proof.
  unfold basisFromNormal. cbn [vx vy vz Math_abs leb fromZ Number_R].
  rewrite Rabs_R0, Rabs_R1.
  replace (RealNumber.Rleb 0 0) with true
    by (symmetry; apply RealFacts.Rleb_true; lra).
  replace (RealNumber.Rleb 0 1) with true
    by (symmetry; apply RealFacts.Rleb_true; lra).
  cbn [andb].
  assert (Hu : THREE.crossVectors (mkVector3 0 0 1) (mkVector3 1 0 0)
               = mkVector3 0 1 0 :> Vector3 R).
  { unfold THREE.crossVectors. cbn [vx vy vz mul sub Number_R].
    apply Vector3_eq; ring. }
  rewrite Hu, normalize_unit by (cbn [vx vy vz]; ring).
  f_equal. unfold THREE.crossVectors. cbn [vx vy vz mul sub Number_R].
  apply Vector3_eq; ring.
Qed.

Lemma circleOnPlane_Z (segments : nat) :
  circleOnPlane (mkVector3 0 0 0) (mkVector3 0 0 1) 1 segments
  = map (fun i => mkVector3 (- sin (angle segments i)) (cos (angle segments i)) 0)
        (seq 0 (S segments)).
Proof.
  unfold circleOnPlane, THREE.clone.
  rewrite normalize_unit by (cbn [vx vy vz]; ring).
  rewrite basisFromNormal_Z.
  apply map_ext. intros i.
  unfold THREE.addVector, THREE.addScaledVector, THREE.newVector3, angle.
  cbn [vx vy vz add mul div fromZ Number_R Math_cos Math_sin Math_PI Trig_R].
  rewrite <- !INR_IZR_INZ.
  apply Vector3_eq; ring.
Qed.

End CircleFacts.

(** C7: the basis of the plane of normal [(0,0,1)] is [u = (0,1,0)],
    [v = (-1,0,0)] (the helper axis is X), in exact arithmetic and in
    binary64 alike; in exact arithmetic, point [i]
    of the circle of radius 1 about the origin in that plane is
    [u cos t + v sin t] at the angle [t = i / segments * 2 pi]; and with
    4 segments the circle is the closed sequence
    [(0,1,0), (-1,0,0), (0,-1,0), (1,0,0), (0,1,0)]. *)
Theorem circleOnPlane_Z_4 :
  basisFromNormal (THREE.normalize (mkVector3 0 0 1))%R
  = (mkVector3 0 1 0, mkVector3 (-1) 0 0)%R
  /\ basisFromNormal (THREE.normalize (mkVector3 0 0 1))%float
     = (mkVector3 0 1 0, mkVector3 (-1) 0 0)%float
  /\ (forall segments : nat,
        circleOnPlane (mkVector3 0 0 0) (mkVector3 0 0 1) 1 segments
        = map (fun i => mkVector3 (- sin (angle segments i))
                                  (cos (angle segments i)) 0)
              (seq 0 (S segments)))%R
  /\ (circleOnPlane (mkVector3 0 0 0) (mkVector3 0 0 1) 1 4
      = [ mkVector3 0 1 0; mkVector3 (-1) 0 0; mkVector3 0 (-1) 0;
          mkVector3 1 0 0; mkVector3 0 1 0 ])%R.
Proof.
  split.
  { rewrite normalize_unit by (cbn [vx vy vz]; ring). apply basisFromNormal_Z. }
  split; [vm_compute; reflexivity|].
  split; [exact circleOnPlane_Z|].
  rewrite circleOnPlane_Z. cbn [seq map]. unfold angle.
  replace (INR 0 / INR 4 * PI * 2)%R with 0%R by (cbn; field).
  replace (INR 1 / INR 4 * PI * 2)%R with (PI / 2)%R by (cbn; field).
  replace (INR 2 / INR 4 * PI * 2)%R with PI by (cbn; field).
  replace (INR 3 / INR 4 * PI * 2)%R with (3 * (PI / 2))%R by (cbn; field).
  replace (INR 4 / INR 4 * PI * 2)%R with (2 * PI)%R by (cbn; field).
  rewrite sin_0, cos_0, sin_PI2, cos_PI2, sin_PI, cos_PI, sin_3PI2, cos_3PI2,
    sin_2PI, cos_2PI.
  repeat (f_equal; try (apply Vector3_eq; lra)).
Qed.

(** ** transformLandmarks and projectLandmarks *)

Section TransformFacts.
Context {T : Type} `{Number T}.
Local Open Scope list_scope.

Lemma transformLandmarks_names ls rotation (pan : Pan T) :
  map name (transformLandmarks ls rotation pan) = map name ls.
Proof. unfold transformLandmarks. rewrite map_map. reflexivity. Qed.

Lemma transformLandmarks_colors ls rotation (pan : Pan T) :
  map color (transformLandmarks ls rotation pan) = map color ls.
Proof. unfold transformLandmarks. rewrite map_map. reflexivity. Qed.

Lemma projectLandmarks_names (ls : list (Landmark T)) w h :
  map pname (projectLandmarks ls w h) = map name ls.
Proof. unfold projectLandmarks. rewrite map_map. reflexivity. Qed.

End TransformFacts.

Section RotationFacts.
Local Open Scope R_scope.

(** The formula of three.js is the rotation by a unit quaternion. *)
Lemma applyQuaternion_rotate (v : Vector3 R) (q : Quaternion R) :
  unitQuaternion q -> THREE.applyQuaternion v q = rotate q v.
Proof.
  unfold unitQuaternion. destruct v as [a b c], q as [x y z w].
  cbn [qx qy qz qw]. intros Hq.
  assert (Ha : a * (x * x + y * y + z * z + w * w) = a) by (rewrite Hq; ring).
  assert (Hb : b * (x * x + y * y + z * z + w * w) = b) by (rewrite Hq; ring).
  assert (Hc : c * (x * x + y * y + z * z + w * w) = c) by (rewrite Hq; ring).
  unfold THREE.applyQuaternion, rotate, qmul, qconj.
  cbn [qx qy qz qw vx vy vz add sub mul fromZ Number_R].
  apply Vector3_eq; lra.
Qed.

Lemma applyQuaternion_identity (v : Vector3 R) :
  THREE.applyQuaternion v THREE.newQuaternion = v.
Proof.
  unfold THREE.applyQuaternion, THREE.newQuaternion. destruct v as [a b c].
  cbn [qx qy qz qw vx vy vz add sub mul fromZ Number_R].
  apply Vector3_eq; ring.
Qed.

Lemma transformLandmarks_identity (ls : list (Landmark R)) :
  transformLandmarks ls THREE.newQuaternion (mkPan 0 0) = ls.
Proof.
  unfold transformLandmarks. rewrite <- (map_id ls) at 2.
  apply map_ext. intros [n [a b c] col]. unfold THREE.clone.
  rewrite applyQuaternion_identity.
  unfold THREE.addVector. cbn [name position color vx vy vz pan_x pan_y add fromZ Number_R].
  f_equal. apply Vector3_eq; ring.
Qed.

End RotationFacts.

(** C8: in exact arithmetic, for every list of landmarks, every unit
    quaternion and every pan, [transformLandmarks] keeps each landmark's
    name and colour and moves its position [p] to the rotation of [p]
    by the quaternion, then translated by [(pan.x, pan.y, 0)]; with the
    identity rotation and the pan [(0, 0)] it returns the landmarks as
    they are. *)
Theorem transformLandmarks_rotate_then_pan :
  forall (landmarks : list (Landmark R)) (rotation : Quaternion R) (pan : Pan R),
    unitQuaternion rotation ->
    transformLandmarks landmarks rotation pan
    = map (fun l => mkLandmark (name l)
                      (translate (rotate rotation (position l))
                                 (pan_x pan) (pan_y pan) 0%R)
                      (color l))
          landmarks
    /\ transformLandmarks landmarks THREE.newQuaternion (mkPan 0%R 0%R) = landmarks.
Proof.
  intros landmarks rotation pan Hq. split; [|apply transformLandmarks_identity].
  unfold transformLandmarks. apply map_ext. intros l.
  unfold THREE.clone. rewrite (applyQuaternion_rotate _ _ Hq). reflexivity.
Qed.

(** The theorem on a half turn about the vertical axis, pan [(10, 20)]:
    the crown stays on the axis, a point on the right goes to the left. *)
Lemma transformLandmarks_rotate_then_pan_witness :
  transformLandmarks
    [ mkLandmark "Crown" (mkVector3 0 100 0) None;
      mkLandmark "Eye Right" (mkVector3 40 (-15) 80) None ]%R
    (mkQuaternion 0 1 0 0)%R (mkPan 10 20)%R
  = [ mkLandmark "Crown" (mkVector3 10 120 0) None;
      mkLandmark "Eye Right" (mkVector3 (-30) 5 (-80)) None ]%R.
Proof.
  etransitivity.
  - apply transformLandmarks_rotate_then_pan.
    unfold unitQuaternion. cbn [qx qy qz qw]. ring.
  - cbn [map name position color]. unfold translate, rotate, qmul, qconj.
    cbn [qx qy qz qw vx vy vz pan_x pan_y].
    repeat (f_equal; try (apply Vector3_eq; ring)).
Defined.

(** ** What transformLandmarks does to the vectors it is given *)

Module HeapFacts.
Import Heap.

Section StoreFacts.
Context {T : Type} `{Number T}.
Local Open Scope list_scope.

Lemma read_app_l (s l : Store T) (r : Ref) :
  (r < List.length s)%nat -> read (s ++ l) r = read s r.
Proof. intros Hr. unfold read. apply nth_error_app1. exact Hr. Qed.

Lemma read_app_r (s l : Store T) (k : nat) :
  read (s ++ l) (List.length s + k) = read l k.
Proof.
  unfold read. rewrite nth_error_app2 by lia. f_equal. lia.
Qed.

Lemma read_Some_lt (s : Store T) (r : Ref) (v : Vector3 T) :
  read s r = Some v -> (r < List.length s)%nat.
Proof. intros Hr. apply nth_error_Some. unfold read in Hr. congruence. Qed.

Lemma write_app_r (s l : Store T) (k : nat) (v : Vector3 T) :
  write (s ++ l) (List.length s + k) v = s ++ write l k v.
Proof.
  induction s as [|w s IH]; [reflexivity|].
  cbn [app List.length Nat.add write]. rewrite IH. reflexivity.
Qed.

Lemma read_first_new (s l : Store T) (v : Vector3 T) :
  read (s ++ v :: l) (List.length s) = Some v.
Proof. rewrite <- (Nat.add_0_r (List.length s)). apply read_app_r. Qed.

Lemma read_second_new (s l : Store T) (v u : Vector3 T) :
  read (s ++ v :: u :: l) (S (List.length s)) = Some u.
Proof. rewrite <- Nat.add_1_r. apply read_app_r. Qed.

Lemma write_first_new (s l : Store T) (v v' : Vector3 T) :
  write (s ++ v :: l) (List.length s) v' = s ++ v' :: l.
Proof. rewrite <- (Nat.add_0_r (List.length s)). apply write_app_r. Qed.

(** [applyQuaternion] does overwrite the vector it is called on. *)
Lemma applyQuaternionM_overwrites (s : Store T) (r : Ref) (v : Vector3 T)
    (q : Quaternion T) :
  read s r = Some v ->
  exists s', applyQuaternionM r q s = Some (r, s')
             /\ read s' r = Some (THREE.applyQuaternion v q).
Proof.
  intros Hr. unfold applyQuaternionM. rewrite Hr. eexists; split; [reflexivity|].
  revert r Hr. induction s as [|w s IH]; intros [|r] Hr; try discriminate.
  - reflexivity.
  - cbn [write]. apply IH. exact Hr.
Qed.

(** One landmark: two new vectors, the moved position and the pan. *)
Lemma transformOne_appends (rotation : Quaternion T) (pan : Pan T)
    (l : LandmarkObj) (s : Store T) (v : Vector3 T) :
  read s (oposition l) = Some v ->
  transformOne rotation pan l s
  = Some (mkLandmarkObj (oname l) (List.length s) (ocolor l),
          s ++ [ THREE.addVector (THREE.applyQuaternion v rotation)
                   (mkVector3 (pan_x pan) (pan_y pan) (fromZ 0));
                 mkVector3 (pan_x pan) (pan_y pan) (fromZ 0) ]).
Proof.
  intros Hv. unfold transformOne, cloneM, alloc. rewrite Hv.
  unfold applyQuaternionM. rewrite read_first_new, write_first_new.
  rewrite length_app, <- app_assoc. cbn [List.length app].
  unfold addM. rewrite Nat.add_1_r, read_first_new, read_second_new.
  rewrite write_first_new. reflexivity.
Qed.

Lemma deref_app (s l : Store T) (o : LandmarkObj) (v : Landmark T) :
  deref s o = Some v -> deref (s ++ l) o = Some v.
Proof.
  unfold deref. destruct (read s (oposition o)) as [p|] eqn:Hp; [|discriminate].
  rewrite read_app_l by (eapply read_Some_lt; exact Hp).
  rewrite Hp. auto.
Qed.

Lemma derefAll_app (s l : Store T) (os : list LandmarkObj) :
  forall vs, derefAll s os = Some vs -> derefAll (s ++ l) os = Some vs.
Proof.
  induction os as [|o os IH]; intros vs Hvs; [exact Hvs|].
  cbn [derefAll] in *.
  destruct (deref s o) as [v|] eqn:Hv; [|discriminate].
  destruct (derefAll s os) as [vs'|]; [|discriminate].
  rewrite (deref_app _ l _ _ Hv), (IH vs' eq_refl). exact Hvs.
Qed.

(** The whole map: the store grows at its end, and the new landmark
    objects stand for the landmarks of the pure function. *)
Lemma transformLandmarksM_appends (rotation : Quaternion T) (pan : Pan T)
    (os : list LandmarkObj) :
  forall (s : Store T) (vs : list (Landmark T)),
    derefAll s os = Some vs ->
    exists out extra,
      transformLandmarksM os rotation pan s = Some (out, s ++ extra)
      /\ derefAll (s ++ extra) out = Some (transformLandmarks vs rotation pan)
      /\ map oname out = map oname os /\ map ocolor out = map ocolor os.
Proof.
  induction os as [|o os IH]; intros s vs Hvs.
  - cbn in Hvs. injection Hvs as <-. exists [], [].
    rewrite app_nil_r. repeat split; reflexivity.
  - cbn [derefAll] in Hvs.
    destruct (deref s o) as [v|] eqn:Hv; [|discriminate].
    destruct (derefAll s os) as [vs'|] eqn:Hvs'; [|discriminate].
    injection Hvs as <-.
    unfold deref in Hv.
    destruct (read s (oposition o)) as [p|] eqn:Hp; [|discriminate].
    injection Hv as <-.
    cbn [transformLandmarksM]. rewrite (transformOne_appends rotation pan o s p Hp).
    set (cell := [ _ ; _ ]).
    destruct (IH (s ++ cell) vs' (derefAll_app s cell os vs' Hvs'))
      as (out & extra & Hrun & Hout & Hnames & Hcolors).
    rewrite Hrun. eexists; exists (cell ++ extra).
    rewrite app_assoc. split; [reflexivity|].
    split; [|cbn [map oname ocolor]; split; f_equal; assumption].
    cbn [derefAll]. rewrite Hout. unfold deref. cbn [oposition oname ocolor].
    rewrite <- app_assoc. unfold cell. cbn [app]. rewrite read_first_new.
    reflexivity.
Qed.

End StoreFacts.
End HeapFacts.

(** C10: for every list of landmarks, in every number model,
    [transformLandmarks] and [projectLandmarks] return one element per
    landmark, in the same order, under the landmark's name (and colour,
    for [transformLandmarks]); and when the landmarks are objects whose
    positions are vectors of a store, [transformLandmarks] runs to the
    end, its result stands for the result of the pure function, the
    landmarks it was given read as before, and every vector that was in
    the store is as it was. *)
Theorem transform_project_frame :
  forall (T : Type) (N : Number T) (objects : list Heap.LandmarkObj)
         (store : Heap.Store T) (landmarks : list (Landmark T))
         (rotation : Quaternion T) (pan : Pan T) (canvasWidth canvasHeight : T),
    Heap.derefAll store objects = Some landmarks ->
    (List.length (transformLandmarks landmarks rotation pan) = List.length landmarks
     /\ map name (transformLandmarks landmarks rotation pan) = map name landmarks
     /\ map color (transformLandmarks landmarks rotation pan) = map color landmarks)
    /\ (List.length (projectLandmarks landmarks canvasWidth canvasHeight)
        = List.length landmarks
        /\ map pname (projectLandmarks landmarks canvasWidth canvasHeight)
           = map name landmarks)
    /\ exists out store',
         Heap.transformLandmarksM objects rotation pan store = Some (out, store')
         /\ Heap.derefAll store' out = Some (transformLandmarks landmarks rotation pan)
         /\ Heap.derefAll store' objects = Some landmarks
         /\ firstn (List.length store) store' = store.
Proof.
  intros T N objects store landmarks rotation pan w h Hobj.
  split.
  { split; [apply transformLandmarks_length|].
    split; [apply transformLandmarks_names|apply transformLandmarks_colors]. }
  split.
  { split; [apply projectLandmarks_length|apply projectLandmarks_names]. }
  destruct (HeapFacts.transformLandmarksM_appends rotation pan objects store landmarks Hobj)
    as (out & extra & Hrun & Hout & _).
  exists out, (store ++ extra)%list.
  split; [exact Hrun|]. split; [exact Hout|].
  split; [apply HeapFacts.derefAll_app; exact Hobj|].
  rewrite firstn_app, Nat.sub_diag, firstn_all, firstn_O. apply app_nil_r.
Qed.

(** The theorem on two landmark objects in a store of two vectors. *)
Lemma transform_project_frame_witness :
  let store : Heap.Store float := [ mkVector3 0 100 0; mkVector3 40 (-15) 80 ]%float in
  let objects := [ Heap.mkLandmarkObj "Crown" 0 (Some "#4ecdc4"%string);
                   Heap.mkLandmarkObj "Eye Right" 1 (Some "#ff6b6b"%string) ] in
  exists out store',
    Heap.transformLandmarksM objects THREE.newQuaternion (mkPan 10 20)%float store
    = Some (out, store')
    /\ Heap.derefAll store' objects = Heap.derefAll store objects.
Proof.
  intros store objects.
  destruct (transform_project_frame float Number_float objects store _
              THREE.newQuaternion (mkPan 10 20)%float 1920%float 1080%float eq_refl)
    as (_ & _ & out & store' & Hrun & _ & Hin & _).
  exists out, store'. split; [exact Hrun|]. rewrite Hin. reflexivity.
Defined.

(** ** The code run on binary64 inputs *)

Section Runs.
Local Open Scope float_scope.

(** The literals of this file are the numbers JavaScript reads. *)
Example literals_binary64 :
  (EPS : float) = 0x1.0c6f7a0b5ed8dp-20
  /\ (lit 66 2 : float) = 0x1.51eb851eb851fp-1
  /\ (fromZ 1920 : float) = 1920.
Proof. repeat split; reflexivity. Qed.

(** [Math.round] on halves, on both sides of zero. *)
Example Math_round_halves :
  map Math_round [ 0.5; 1.5; 2.5; -0.5; -1.5; -2.5; 959.5; 440; -0.25 ]
  = [ 1; 2; 3; -0; -1; -2; 960; 440; -0 ].
Proof. vm_compute. reflexivity. Qed.

(** The rim of the default side cut, 75.1265...: the root of 5644. *)
Example rim_radius_default :
  calculateRimRadius 100 66 = 0x1.2c8198ea0a93ep+6.
Proof. vm_compute. reflexivity. Qed.

(** A polyline that enters the band, leaves it, and then crosses it in
    one step: the crossings are put in, and two segments come out. *)
Example clipToSideBand_crossings :
  clipToSideBand
    [ mkVector3 (-2) 0 1; mkVector3 0 0 (-1); mkVector3 2 0 2;
      mkVector3 3 0 0; mkVector3 (-3) 0 0 ] 1
  = [ [ mkVector3 (-1) 0 0; mkVector3 0 0 (-1); mkVector3 1 0 0.5 ];
      [ mkVector3 1 0 0; mkVector3 (-1) 0 0 ] ].
Proof. vm_compute. reflexivity. Qed.

(** An edge that leaves the band with a step in x below [EPS] gets no
    crossing; the run of one point it closes is dropped. *)
Example clipToSideBand_short_run :
  clipToSideBand [ mkVector3 0x1.000008p+0 0 0; mkVector3 0x1.000018p+0 1 0 ] 1 = [].
Proof. vm_compute. reflexivity. Qed.

(** Entering and leaving on the same side. *)
Example clipToSideBand_enter_exit :
  clipToSideBand
    [ mkVector3 2 0 0; mkVector3 2 1 0; mkVector3 1 2 0; mkVector3 2 3 0 ] 1.5
  = [ [ mkVector3 1.5 1.5 0; mkVector3 1 2 0; mkVector3 1.5 2.5 0 ] ].
Proof. vm_compute. reflexivity. Qed.

(** A point whose z is NaN is not [z >= 0]: it goes to a back run. *)
Example splitFrontBack_nan :
  splitFrontBack [ mkVector3 0 0 1; mkVector3 0 0 nan; mkVector3 0 0 2 ]
  = mkFrontBack [ [mkVector3 0 0 1]; [mkVector3 0 0 2] ] [ [mkVector3 0 0 nan] ].
Proof. vm_compute. reflexivity. Qed.

(** The identity rotation and no pan leave the default landmarks as
    they are, bit for bit. *)
Example transformLandmarks_identity_defaults :
  transformLandmarks (calculateLandmarks (sceneDefaults 100)) THREE.newQuaternion
                     (mkPan 0 0)
  = calculateLandmarks (sceneDefaults 100).
Proof. vm_compute. reflexivity. Qed.

End Runs.

(** * More of the code

    ** basisFromNormal and circleOnPlane on any plane *)

Section BasisFacts.
Local Open Scope R_scope.

Lemma dot_cross_l (a b : Vector3 R) : dot (THREE.crossVectors a b) a = 0.
Proof.
  unfold dot, THREE.crossVectors. cbn [vx vy vz sub mul Number_R]. ring.
Qed.

Lemma dot_cross_r (a b : Vector3 R) : dot (THREE.crossVectors a b) b = 0.
Proof.
  unfold dot, THREE.crossVectors. cbn [vx vy vz sub mul Number_R]. ring.
Qed.

(** Lagrange's identity. *)
Lemma dot_cross_cross (a b : Vector3 R) :
  dot (THREE.crossVectors a b) (THREE.crossVectors a b)
  = dot a a * dot b b - dot a b * dot a b.
Proof.
  unfold dot, THREE.crossVectors. cbn [vx vy vz sub mul Number_R]. ring.
Qed.

Lemma dot_comm (a b : Vector3 R) : dot a b = dot b a.
Proof. unfold dot. ring. Qed.

Lemma dot_multiplyScalar_l (a b : Vector3 R) (k : R) :
  dot (THREE.multiplyScalar a k) b = k * dot a b.
Proof.
  unfold dot, THREE.multiplyScalar. cbn [vx vy vz mul Number_R]. ring.
Qed.

(** A vector that is not zero is divided by its length. *)
Lemma normalize_nonzero (w : Vector3 R) :
  0 < dot w w ->
  THREE.normalize w = THREE.multiplyScalar w (1 / sqrt (dot w w))
  /\ (1 / sqrt (dot w w)) * (1 / sqrt (dot w w)) * dot w w = 1.
Proof.
  intros Hw. pose proof (sqrt_lt_R0 _ Hw) as Hs.
  split.
  - unfold THREE.normalize, THREE.length.
    cbn [add mul Math_sqrt truthy fromZ Number_R]. fold (dot w w).
    rewrite RealFacts.Rtruthy_true by lra. reflexivity.
  - rewrite <- (sqrt_sqrt (dot w w)) at 3 by lra. field. lra.
Qed.

Lemma normalize_dot (w : Vector3 R) :
  0 < dot w w -> dot (THREE.normalize w) (THREE.normalize w) = 1.
Proof.
  intros Hw. destruct (normalize_nonzero w Hw) as [-> Hk].
  rewrite dot_multiplyScalar_l, (dot_comm w (THREE.multiplyScalar _ _)),
    dot_multiplyScalar_l. lra.
Qed.

(** The helper axis is never along the normal. *)
Lemma basisFromNormal_axis (n : Vector3 R) :
  0 < dot n n ->
  exists axis : Vector3 R,
    basisFromNormal n
    = (THREE.normalize (THREE.crossVectors n axis),
       THREE.crossVectors n (THREE.normalize (THREE.crossVectors n axis)))
    /\ 0 < dot (THREE.crossVectors n axis) (THREE.crossVectors n axis).
Proof.
  intros Hn. destruct n as [a b c]. unfold dot in Hn. cbn [vx vy vz] in Hn.
  unfold basisFromNormal. cbn [vx vy vz Math_abs leb fromZ Number_R].
  pose proof (Rle_0_sqr a) as Ha. pose proof (Rle_0_sqr b) as Hb.
  pose proof (Rle_0_sqr c) as Hc. unfold Rsqr in Ha, Hb, Hc.
  destruct (RealNumber.Rleb (Rabs a) (Rabs b) && RealNumber.Rleb (Rabs a) (Rabs c)) eqn:EX.
  - apply andb_true_iff in EX. destruct EX as [E1 E2].
    apply RealFacts.Rleb_true, Rsqr_le_abs_1 in E1.
    apply RealFacts.Rleb_true, Rsqr_le_abs_1 in E2. unfold Rsqr in E1, E2.
    eexists; split; [reflexivity|].
    unfold dot, THREE.crossVectors. cbn [vx vy vz sub mul Number_R]. nra.
  - destruct (RealNumber.Rleb (Rabs b) (Rabs c)) eqn:EY.
    + apply RealFacts.Rleb_true, Rsqr_le_abs_1 in EY. unfold Rsqr in EY.
      eexists; split; [reflexivity|].
      unfold dot, THREE.crossVectors. cbn [vx vy vz sub mul Number_R]. nra.
    + apply RealFacts.Rleb_false, Rsqr_lt_abs_1 in EY. unfold Rsqr in EY.
      eexists; split; [reflexivity|].
      unfold dot, THREE.crossVectors. cbn [vx vy vz sub mul Number_R]. nra.
Qed.

Lemma basisFromNormal_unit (n : Vector3 R) :
  dot n n = 1 ->
  let '(u, v) := basisFromNormal n in
  dot u u = 1 /\ dot v v = 1 /\ dot u v = 0 /\ dot u n = 0 /\ dot v n = 0.
Proof.
  intros Hn.
  destruct (basisFromNormal_axis n) as (axis & -> & Hw); [lra|].
  set (w := THREE.crossVectors n axis) in *.
  assert (Huu : dot (THREE.normalize w) (THREE.normalize w) = 1)
    by (apply normalize_dot; exact Hw).
  assert (Hun : dot (THREE.normalize w) n = 0).
  { destruct (normalize_nonzero w Hw) as [-> _].
    rewrite dot_multiplyScalar_l. unfold w. rewrite dot_cross_l. ring. }
  split; [exact Huu|].
  split; [rewrite dot_cross_cross, Hn, Huu, (dot_comm n), Hun; ring|].
  split; [rewrite dot_comm; apply dot_cross_r|].
  split; [exact Hun|apply dot_cross_l].
Qed.

End BasisFacts.

(** X1: in exact arithmetic, for every normal [n] of length 1 the two
    vectors of [basisFromNormal n] have length 1, are orthogonal to each
    other, and are both orthogonal to [n]. *)
Theorem basisFromNormal_orthonormal :
  forall n : Vector3 R,
    dot n n = 1%R ->
    dot (fst (basisFromNormal n)) (fst (basisFromNormal n)) = 1%R
    /\ dot (snd (basisFromNormal n)) (snd (basisFromNormal n)) = 1%R
    /\ dot (fst (basisFromNormal n)) (snd (basisFromNormal n)) = 0%R
    /\ dot (fst (basisFromNormal n)) n = 0%R
    /\ dot (snd (basisFromNormal n)) n = 0%R.
Proof.
  intros n Hn. pose proof (basisFromNormal_unit n Hn) as Hb.
  destruct (basisFromNormal n) as [u v]. exact Hb.
Qed.

(** The theorem on a normal that leans: [(3/5, 0, 4/5)]. *)
Lemma basisFromNormal_orthonormal_witness :
  dot (fst (basisFromNormal (mkVector3 (3 / 5) 0 (4 / 5))%R))
      (snd (basisFromNormal (mkVector3 (3 / 5) 0 (4 / 5))%R)) = 0%R.
Proof.
  apply basisFromNormal_orthonormal. unfold dot. cbn [vx vy vz]. field.
Defined.

Section CircleGeneral.
Local Open Scope R_scope.

(** The point of a circle at an angle, as the loop of [circleOnPlane]
    computes it. *)
Lemma circleOnPlane_points (center normal : Vector3 R) (radius : R) (segments : nat) :
  circleOnPlane center normal radius segments
  = map (fun i : nat =>
           let u := fst (basisFromNormal (THREE.normalize normal)) in
           let v := snd (basisFromNormal (THREE.normalize normal)) in
           let t := angle segments i in
           mkVector3 (0 + vx u * (cos t * radius) + vx v * (sin t * radius) + vx center)
                     (0 + vy u * (cos t * radius) + vy v * (sin t * radius) + vy center)
                     (0 + vz u * (cos t * radius) + vz v * (sin t * radius) + vz center))
        (seq 0 (S segments)).
Proof.
  unfold circleOnPlane, THREE.clone.
  destruct (basisFromNormal (THREE.normalize normal)) as [u v].
  apply map_ext. intros i.
  unfold THREE.addVector, THREE.addScaledVector, THREE.newVector3, angle.
  cbn [vx vy vz fst snd add mul div fromZ Number_R Math_cos Math_sin Math_PI Trig_R].
  rewrite <- !INR_IZR_INZ. reflexivity.
Qed.

Lemma angle_0 (segments : nat) : angle segments 0 = 0.
Proof. unfold angle. cbn [INR]. unfold Rdiv. ring. Qed.

Lemma angle_full (segments : nat) : (0 < segments)%nat -> angle segments segments = 2 * PI.
Proof.
  intros Hs. unfold angle. apply lt_0_INR in Hs. field. lra.
Qed.

End CircleGeneral.

(** X2: in exact arithmetic, for every centre, every normal that is not
    zero, every radius and every number of segments, [circleOnPlane]
    returns [segments + 1] points, each in the plane through the centre
    orthogonal to the normal and at distance [|radius|] of the centre;
    and if [segments > 0] the last point is the first: the circle is
    closed. *)
Theorem circleOnPlane_on_circle :
  forall (center normal : Vector3 R) (radius : R) (segments : nat),
    (0 < dot normal normal)%R ->
    let points := circleOnPlane center normal radius segments in
    List.length points = S segments
    /\ Forall (fun p => dot (minus p center) normal = 0%R
                        /\ dist2 p center = (radius * radius)%R) points
    /\ ((0 < segments)%nat -> nth segments points center = nth 0 points center).
Proof.
  intros center normal radius segments Hn points. unfold points.
  rewrite circleOnPlane_points.
  destruct (normalize_nonzero normal Hn) as [Hnorm Hk].
  pose proof (normalize_dot normal Hn) as Hunit.
  pose proof (basisFromNormal_orthonormal _ Hunit) as (Huu & Hvv & Huv & Hun & Hvn).
  set (u := fst (basisFromNormal (THREE.normalize normal))) in *.
  set (v := snd (basisFromNormal (THREE.normalize normal))) in *.
  rewrite Hnorm in Hun, Hvn.
  rewrite dot_comm, dot_multiplyScalar_l in Hun, Hvn.
  assert (Hk0 : (1 / sqrt (dot normal normal) <> 0)%R) by (intros E; rewrite E in Hk; lra).
  apply Rmult_integral in Hun. destruct Hun as [Hun|Hun]; [contradiction|].
  apply Rmult_integral in Hvn. destruct Hvn as [Hvn|Hvn]; [contradiction|].
  split; [rewrite length_map, length_seq; reflexivity|].
  split.
  - apply Forall_forall. intros p Hp. apply in_map_iff in Hp.
    destruct Hp as (i & <- & _). cbn zeta.
    set (a := (cos (angle segments i) * radius)%R).
    set (b := (sin (angle segments i) * radius)%R).
    assert (Hab : (a * a + b * b = radius * radius)%R).
    { unfold a, b. pose proof (sin2_cos2 (angle segments i)) as Hsc.
      unfold Rsqr in Hsc.
      replace (cos (angle segments i) * radius * (cos (angle segments i) * radius)
               + sin (angle segments i) * radius * (sin (angle segments i) * radius))%R
        with ((sin (angle segments i) * sin (angle segments i)
               + cos (angle segments i) * cos (angle segments i)) * (radius * radius))%R
        by ring.
      rewrite Hsc. ring. }
    split.
    + unfold dot, minus in *. cbn [vx vy vz] in *.
      replace (_ + _ + _)%R
        with (a * (vx normal * vx u + vy normal * vy u + vz normal * vz u)
              + b * (vx normal * vx v + vy normal * vy v + vz normal * vz v))%R by ring.
      rewrite Hun, Hvn. ring.
    + unfold dist2, dot, minus in *. cbn [vx vy vz] in *.
      replace (_ + _ + _)%R
        with (a * a * (vx u * vx u + vy u * vy u + vz u * vz u)
              + b * b * (vx v * vx v + vy v * vy v + vz v * vz v)
              + 2 * a * b * (vx u * vx v + vy u * vy v + vz u * vz v))%R by ring.
      rewrite Huu, Hvv, Huv. lra.
  - intros Hs.
    set (f := fun i : nat => _).
    assert (Hnth : forall i, (i <= segments)%nat ->
                             nth i (map f (seq 0 (S segments))) center = f i).
    { intros i Hi.
      rewrite nth_indep with (d' := f 0%nat) by (rewrite length_map, length_seq; lia).
      rewrite map_nth, seq_nth by lia. reflexivity. }
    rewrite (Hnth segments), (Hnth 0%nat) by lia.
    unfold f. cbn zeta. rewrite angle_0, (angle_full _ Hs).
    rewrite sin_2PI, cos_2PI, sin_0, cos_0. reflexivity.
Qed.

(** The theorem on the left rim of the default head: normal [(-1,0,0)]. *)
Lemma circleOnPlane_on_circle_witness :
  List.length (circleOnPlane (mkVector3 (-66) 0 0) (mkVector3 (-1) 0 0) 75 128)%R = 129%nat.
Proof.
  apply (circleOnPlane_on_circle (mkVector3 (-66) 0 0) (mkVector3 (-1) 0 0) 75 128)%R.
  unfold dot. cbn [vx vy vz]. lra.
Defined.

(** ** More on splitFrontBack *)

Section SplitMore.
Context {T : Type} `{Number T}.
Local Open Scope list_scope.

Local Abbreviation run := (list (Vector3 T)).

(** Points of one side only stay in the run that is open. *)
Lemma splitLoop_all_front (points : run) :
  forall cf : run,
    Forall (fun p => isFront p = true) points ->
    splitLoop points [] [] cf []
    = mkFrontBack (if nonEmpty (cf ++ points) then [cf ++ points] else []) [].
Proof.
  induction points as [|p rest IH]; intros cf Hall; cbn [splitLoop].
  - rewrite app_nil_r. destruct (nonEmpty cf); reflexivity.
  - inversion Hall as [|? ? Hp Hrest]; subst. rewrite Hp.
    change (nonEmpty (@nil (Vector3 T))) with false. cbn iota.
    rewrite (IH _ Hrest), <- app_assoc. reflexivity.
Qed.

Lemma splitLoop_all_back (points : run) :
  forall cb : run,
    Forall (fun p => isFront p = false) points ->
    splitLoop points [] [] [] cb
    = mkFrontBack [] (if nonEmpty (cb ++ points) then [cb ++ points] else []).
Proof.
  induction points as [|p rest IH]; intros cb Hall; cbn [splitLoop].
  - rewrite app_nil_r. destruct (nonEmpty cb); reflexivity.
  - inversion Hall as [|? ? Hp Hrest]; subst. rewrite Hp.
    change (nonEmpty (@nil (Vector3 T))) with false. cbn iota.
    rewrite (IH _ Hrest), <- app_assoc. reflexivity.
Qed.

(** The runs of the two sides come in turn: their numbers differ by one
    at most, the side that starts having the one more. *)
Lemma splitLoop_counts (points : run) :
  forall cf cb : run,
    let r := splitLoop points [] [] cf cb in
    (cb = [] -> cf <> [] \/ startsWith true points ->
     (List.length (back r) <= List.length (front r) <= S (List.length (back r)))%nat)
    /\ (cf = [] -> cb <> [] \/ startsWith false points ->
        (List.length (front r) <= List.length (back r) <= S (List.length (front r)))%nat).
Proof.
  induction points as [|p rest IH]; intros cf cb; cbn zeta.
  - cbn [splitLoop front back app]. split; intros -> _.
    + destruct (nonEmpty cf); cbn; lia.
    + destruct (nonEmpty cb); cbn; lia.
  - cbn [splitLoop]. destruct (isFront p) eqn:Ep.
    + split.
      * intros -> _. change (nonEmpty (@nil (Vector3 T))) with false. cbn iota.
        destruct (IH (cf ++ [p]) []) as [IH1 _].
        apply IH1; [reflexivity|]. left. destruct cf; discriminate.
      * intros -> [Hcb|Hs]; [|cbn in Hs; congruence].
        rewrite (nonEmpty_true _ Hcb), splitLoop_closed. cbn [front back app List.length].
        destruct (IH [p] []) as [IH1 _].
        assert (Hne : [p] <> []) by discriminate.
        specialize (IH1 eq_refl (or_introl Hne)). cbn zeta in IH1.
        destruct IH1 as [IHa IHb]. split; [exact IHb|apply le_n_S; exact IHa].
    + split.
      * intros -> [Hcf|Hs]; [|cbn in Hs; congruence].
        rewrite (nonEmpty_true _ Hcf), splitLoop_closed. cbn [front back app List.length].
        destruct (IH [] [p]) as [_ IH2].
        assert (Hne : [p] <> []) by discriminate.
        specialize (IH2 eq_refl (or_introl Hne)). cbn zeta in IH2.
        destruct IH2 as [IHa IHb]. split; [exact IHb|apply le_n_S; exact IHa].
      * intros -> _. change (nonEmpty (@nil (Vector3 T))) with false. cbn iota.
        destruct (IH [] (cb ++ [p])) as [_ IH2].
        apply IH2; [reflexivity|]. left. destruct cb; discriminate.
Qed.

End SplitMore.

(** X3: in every number model, a sequence of points that are all in
    front ([z >= 0]) and not empty comes back as one front run, the
    sequence itself, and no back run; a sequence of points none of which
    is in front, as one back run and no front run. *)
Theorem splitFrontBack_one_side :
  forall (T : Type) (N : Number T) (points : list (Vector3 T)),
    points <> [] ->
    (Forall (fun p => (vz p >=? fromZ 0)%js = true) points ->
     splitFrontBack points = mkFrontBack [points] [])
    /\ (Forall (fun p => (vz p >=? fromZ 0)%js = false) points ->
        splitFrontBack points = mkFrontBack [] [points]).
Proof.
  intros T N points Hne. unfold splitFrontBack. split; intros Hall.
  - rewrite (splitLoop_all_front points [] Hall). cbn [app].
    rewrite (nonEmpty_true _ Hne). reflexivity.
  - rewrite (splitLoop_all_back points [] Hall). cbn [app].
    rewrite (nonEmpty_true _ Hne). reflexivity.
Qed.

(** The theorem on two points behind the camera. *)
Lemma splitFrontBack_one_side_witness :
  splitFrontBack [ mkVector3 0 0 (-1); mkVector3 1 0 (-2) ]%float
  = mkFrontBack [] [ [ mkVector3 0 0 (-1); mkVector3 1 0 (-2) ]%float ].
Proof.
  apply (splitFrontBack_one_side float Number_float).
  - discriminate.
  - repeat constructor.
Defined.

(** X4: in every number model, the front runs and the back runs of
    [splitFrontBack] come in turn: there are as many of the one as of
    the other, or one more on the side of the first point.  So no two
    runs that follow each other are on the same side: the runs are as
    long as they can be. *)
Theorem splitFrontBack_runs_in_turn :
  forall (T : Type) (N : Number T) (points : list (Vector3 T)),
    let r := splitFrontBack points in
    match points with
    | [] => front r = [] /\ back r = []
    | p :: _ =>
        if (vz p >=? fromZ 0)%js
        then (List.length (back r) <= List.length (front r)
              <= S (List.length (back r)))%nat
        else (List.length (front r) <= List.length (back r)
              <= S (List.length (front r)))%nat
    end.
Proof.
  intros T N points r. unfold r, splitFrontBack.
  destruct points as [|p rest]; [split; reflexivity|].
  destruct (splitLoop_counts (p :: rest) [] []) as [H1 H2].
  fold (isFront p). destruct (isFront p) eqn:Ep.
  - apply H1; [reflexivity|]. right. exact Ep.
  - apply H2; [reflexivity|]. right. exact Ep.
Qed.

(** ** More on clipToSideBand *)

Section ClipMore.
Local Open Scope R_scope.

Lemma isInside_inBand (d : R) (p : Vector3 R) : isInside d p = true <-> inBand d p.
Proof.
  unfold isInside, inBand. cbn [leb add Math_abs Number_R].
  apply RealFacts.Rleb_true.
Qed.

Lemma isInside_outside (d : R) (p : Vector3 R) :
  isInside d p = false <-> d + EPS < Rabs (vx p).
Proof.
  unfold isInside. cbn [leb add Math_abs Number_R]. apply RealFacts.Rleb_false.
Qed.

(** A crossing that is found is on the boundary and on the edge. *)
Lemma intersectX_Some (p0 p1 : Vector3 R) (boundary : R) (q : Vector3 R) :
  intersectX p0 p1 boundary = Some q ->
  vx q = boundary /\ between p0 p1 q /\ EPS <= Rabs (vx p1 - vx p0).
Proof.
  unfold intersectX. cbn [ltb leb sub div Math_abs fromZ Number_R].
  destruct (RealNumber.Rltb (Rabs (vx p1 - vx p0)) EPS) eqn:Edx; [discriminate|].
  apply RealFacts.Rltb_false in Edx.
  destruct (RealNumber.Rleb 0 _ && RealNumber.Rleb _ 1) eqn:Et; [|discriminate].
  apply andb_true_iff in Et. destruct Et as [Et0 Et1].
  apply RealFacts.Rleb_true in Et0. apply RealFacts.Rleb_true in Et1.
  intros Hq. injection Hq as <-.
  assert (Hdx : vx p1 - vx p0 <> 0).
  { intros E. rewrite E, Rabs_R0 in Edx. pose proof EPS_R_pos. lra. }
  split; [|split; [|exact Edx]].
  - unfold lerp3, THREE.lerpVectors. cbn [vx add sub mul Number_R]. field. exact Hdx.
  - eexists. split; [split; [exact Et0|exact Et1]|reflexivity].
Qed.

Lemma inBand_boundary (d : R) (q : Vector3 R) :
  0 <= d -> vx q = d \/ vx q = - d -> inBand d q.
Proof.
  intros Hd Hq. unfold inBand. pose proof EPS_R_pos.
  destruct Hq as [-> | ->]; [|rewrite Rabs_Ropp]; rewrite Rabs_pos_eq; lra.
Qed.

Lemma intersectX_inBand (d : R) (p0 p1 q : Vector3 R) (boundary : R) :
  0 <= d -> boundary = d \/ boundary = - d ->
  intersectX p0 p1 boundary = Some q -> inBand d q.
Proof.
  intros Hd Hb Hq. apply intersectX_Some in Hq. destruct Hq as [Hx _].
  apply inBand_boundary; [exact Hd|]. rewrite Hx. exact Hb.
Qed.

(** One turn of the loop keeps every point it stores inside the band. *)
Lemma clipStep_inBand (d : R) (prev curr : Vector3 R)
    (segments : list (list (Vector3 R))) (currentSegment : list (Vector3 R)) :
  0 <= d ->
  Forall (Forall (inBand d)) segments -> Forall (inBand d) currentSegment ->
  Forall (Forall (inBand d)) (fst (clipStep d prev curr segments currentSegment))
  /\ Forall (inBand d) (snd (clipStep d prev curr segments currentSegment)).
Proof.
  intros Hd Hs Hc. unfold clipStep, THREE.clone.
  assert (Hpush : forall s, Forall (inBand d) s ->
             Forall (Forall (inBand d))
               (if (2 <=? List.length s)%nat then segments ++ [s] else segments)%list).
  { intros s Hsb. destruct (2 <=? List.length s)%nat; [|exact Hs].
    apply Forall_app. split; [exact Hs|]. constructor; [exact Hsb|constructor]. }
  destruct (isInside d prev) eqn:Ep, (isInside d curr) eqn:Ec; cbn [andb negb fst snd].
  - split; [exact Hs|]. apply Forall_app. split; [exact Hc|].
    constructor; [|constructor]. apply isInside_inBand. exact Ec.
  - split; [|constructor]. apply Hpush.
    destruct (intersectX prev curr _) as [q|] eqn:Eq; [|exact Hc].
    apply Forall_app. split; [exact Hc|]. constructor; [|constructor].
    eapply intersectX_inBand; [exact Hd| |exact Eq].
    cbn [ltb neg Number_R]. destruct (RealNumber.Rltb d (vx curr)); auto.
  - apply isInside_inBand in Ec.
    destruct (intersectX prev curr _) as [q|] eqn:Eq; cbn [fst snd];
      (split; [exact Hs|]).
    + constructor; [|constructor; [exact Ec|constructor]].
      eapply intersectX_inBand; [exact Hd| |exact Eq].
      cbn [ltb neg Number_R]. destruct (RealNumber.Rltb d (vx prev)); auto.
    + constructor; [exact Ec|constructor].
  - destruct (_ || _); [|split; assumption].
    destruct (intersectX prev curr (- d)%js) as [q1|] eqn:E1; [|split; assumption].
    destruct (intersectX prev curr d) as [q2|] eqn:E2; [|split; assumption].
    assert (H1 : inBand d q1)
      by (eapply intersectX_inBand; [exact Hd|right; reflexivity|exact E1]).
    assert (H2 : inBand d q2)
      by (eapply intersectX_inBand; [exact Hd|left; reflexivity|exact E2]).
    assert (Hpair : forall a b, inBand d a -> inBand d b ->
               Forall (Forall (inBand d)) (segments ++ [[a; b]])%list).
    { intros a b Ha Hb. apply Forall_app. split; [exact Hs|].
      apply Forall_cons; [|apply Forall_nil].
      apply Forall_cons; [exact Ha|]. apply Forall_cons; [exact Hb|apply Forall_nil]. }
    destruct (vx prev <? vx curr)%js; cbn [fst snd]; (split; [|exact Hc]);
      apply Hpair; assumption.
Qed.

Lemma clipLoop_inBand (d : R) (points : list (Vector3 R)) :
  forall (prev : Vector3 R) (segments : list (list (Vector3 R)))
         (currentSegment : list (Vector3 R)),
    0 <= d ->
    Forall (Forall (inBand d)) segments -> Forall (inBand d) currentSegment ->
    Forall (Forall (inBand d)) (clipLoop d prev points segments currentSegment).
Proof.
  induction points as [|curr rest IH]; intros prev segments current Hd Hs Hc;
    cbn [clipLoop].
  - destruct (2 <=? List.length current)%nat; [|exact Hs].
    apply Forall_app. split; [exact Hs|]. constructor; [exact Hc|constructor].
  - pose proof (clipStep_inBand d prev curr segments current Hd Hs Hc) as [H1 H2].
    destruct (clipStep d prev curr segments current) as [segments' current'].
    apply IH; assumption.
Qed.

(** Outside on one side all along, nothing is kept. *)
Lemma clipLoop_right (d : R) (points : list (Vector3 R)) :
  forall prev : Vector3 R,
    0 <= d -> d + EPS < vx prev ->
    Forall (fun p => d + EPS < vx p) points ->
    clipLoop d prev points [] [] = [].
Proof.
  induction points as [|curr rest IH]; intros prev Hd Hprev Hall; [reflexivity|].
  inversion Hall as [|? ? Hcurr Hrest]; subst. cbn [clipLoop]. unfold clipStep.
  pose proof EPS_R_pos as He.
  replace (isInside d prev) with false
    by (symmetry; apply isInside_outside; rewrite Rabs_pos_eq; lra).
  replace (isInside d curr) with false
    by (symmetry; apply isInside_outside; rewrite Rabs_pos_eq; lra).
  cbn [andb negb ltb neg Number_R].
  replace (RealNumber.Rltb (vx prev) (- d)) with false
    by (symmetry; apply RealFacts.Rltb_false; lra).
  replace (RealNumber.Rltb (vx curr) (- d)) with false
    by (symmetry; apply RealFacts.Rltb_false; lra).
  rewrite andb_false_r. cbn [andb orb]. apply IH; assumption.
Qed.

Lemma clipLoop_left (d : R) (points : list (Vector3 R)) :
  forall prev : Vector3 R,
    0 <= d -> vx prev < - (d + EPS) ->
    Forall (fun p => vx p < - (d + EPS)) points ->
    clipLoop d prev points [] [] = [].
Proof.
  induction points as [|curr rest IH]; intros prev Hd Hprev Hall; [reflexivity|].
  inversion Hall as [|? ? Hcurr Hrest]; subst. cbn [clipLoop]. unfold clipStep.
  pose proof EPS_R_pos as He.
  replace (isInside d prev) with false
    by (symmetry; apply isInside_outside; rewrite Rabs_left; lra).
  replace (isInside d curr) with false
    by (symmetry; apply isInside_outside; rewrite Rabs_left; lra).
  cbn [andb negb ltb neg Number_R].
  replace (RealNumber.Rltb d (vx prev)) with false
    by (symmetry; apply RealFacts.Rltb_false; lra).
  replace (RealNumber.Rltb d (vx curr)) with false
    by (symmetry; apply RealFacts.Rltb_false; lra).
  rewrite andb_false_r. cbn [andb orb]. apply IH; assumption.
Qed.

End ClipMore.

(** X5: in exact arithmetic, for every polyline and every [d >= 0],
    every point of every segment that [clipToSideBand] returns is in the
    band: [|x| <= d + EPS]. *)
Theorem clipToSideBand_within_band :
  forall (points : list (Vector3 R)) (d : R),
    (0 <= d)%R ->
    Forall (Forall (fun p => (Rabs (vx p) <= d + EPS)%R)) (clipToSideBand points d).
Proof.
  intros points d Hd. unfold clipToSideBand.
  destruct (List.length points <? 2)%nat; [constructor|].
  destruct points as [|first rest]; [constructor|].
  apply (clipLoop_inBand d rest first); [exact Hd|constructor|].
  destruct (isInside d first) eqn:E; [|constructor].
  constructor; [|constructor]. apply isInside_inBand. exact E.
Qed.

(** The theorem on an edge that runs across the band [|x| <= 1]. *)
Lemma clipToSideBand_within_band_witness :
  Forall (Forall (fun p => (Rabs (vx p) <= 1 + EPS)%R))
         (clipToSideBand [ mkVector3 (-3) 0 0; mkVector3 3 0 0 ]%R 1%R).
Proof. apply clipToSideBand_within_band. lra. Defined.

(** X6: in exact arithmetic, when [intersectX] finds a crossing of the
    edge from [p0] to [p1] with [x = boundary], the crossing has
    [x = boundary] and is on the edge, and the edge spans at least [EPS]
    in x; when the edge spans less than [EPS] in x, no crossing is
    found, wherever the boundary is. *)
Theorem intersectX_on_boundary :
  forall (p0 p1 : Vector3 R) (boundary : R),
    (forall q, intersectX p0 p1 boundary = Some q ->
               vx q = boundary /\ between p0 p1 q
               /\ (EPS <= Rabs (vx p1 - vx p0))%R)
    /\ ((Rabs (vx p1 - vx p0) < EPS)%R -> intersectX p0 p1 boundary = None).
Proof.
  intros p0 p1 boundary. split; [intros q; apply intersectX_Some|].
  intros Hdx. unfold intersectX. cbn [ltb sub Math_abs Number_R].
  apply RealFacts.Rltb_true in Hdx. rewrite Hdx. reflexivity.
Qed.

(** The theorem on an edge that is nearly vertical. *)
Lemma intersectX_on_boundary_witness :
  intersectX (mkVector3 1 0 0)%R (mkVector3 1 5 0)%R 1%R = None.
Proof.
  apply intersectX_on_boundary. cbn [vx].
  replace (1 - 1)%R with 0%R by ring. rewrite Rabs_R0. apply EPS_R_pos.
Defined.

(** X7: in exact arithmetic, for [d >= 0], a polyline all of whose
    points are to the right of the band ([x > d + EPS]), or all to its
    left, gives no segment. *)
Theorem clipToSideBand_outside :
  forall (points : list (Vector3 R)) (d : R),
    (0 <= d)%R ->
    Forall (fun p => (d + EPS < vx p)%R) points
    \/ Forall (fun p => (vx p < - (d + EPS))%R) points ->
    clipToSideBand points d = [].
Proof.
  intros points d Hd Hside. unfold clipToSideBand.
  destruct (List.length points <? 2)%nat; [reflexivity|].
  destruct points as [|first rest]; [reflexivity|].
  pose proof EPS_R_pos as He.
  destruct Hside as [Hall|Hall]; inversion Hall as [|? ? Hfirst Hrest]; subst.
  - replace (isInside d first) with false
      by (symmetry; apply isInside_outside; rewrite Rabs_pos_eq; lra).
    apply clipLoop_right; assumption.
  - replace (isInside d first) with false
      by (symmetry; apply isInside_outside; rewrite Rabs_left; lra).
    apply clipLoop_left; assumption.
Qed.

(** The theorem on three points to the right of the band [|x| <= 1]. *)
Lemma clipToSideBand_outside_witness :
  clipToSideBand [ mkVector3 2 0 0; mkVector3 3 1 0; mkVector3 2 2 0 ]%R 1%R = [].
Proof.
  apply clipToSideBand_outside; [lra|]. left.
  assert (He : (EPS < 1)%R).
  { unfold EPS, lit. cbn [fromZ div Number_R].
    apply Rmult_lt_reg_r with (r := IZR (10 ^ Z.of_nat 6)).
    - apply IZR_lt. reflexivity.
    - unfold Rdiv. rewrite Rmult_assoc, Rinv_l by (apply not_0_IZR; discriminate).
      rewrite Rmult_1_r, Rmult_1_l. apply IZR_lt. reflexivity. }
  repeat constructor; cbn [vx]; lra.
Defined.

(** ** The rim radius, rotations, and the landmarks *)

(** Decimal literals in [R]: the power of ten is computed. *)
Ltac lit_R :=
  unfold lit; cbn [fromZ div Number_R];
  repeat match goal with
         | |- context [IZR (10 ^ Z.of_nat ?k)] =>
             let z := eval vm_compute in (10 ^ Z.of_nat k)%Z in
             change (10 ^ Z.of_nat k)%Z with z
         end.

Section RimFacts.
Local Open Scope R_scope.

Lemma Rround_shift (x : R) (k : Z) :
  RealNumber.Rround (x + IZR k) = RealNumber.Rround x + IZR k.
Proof.
  unfold RealNumber.Rround. rewrite <- plus_IZR. f_equal.
  symmetry. apply Int_part_spec.
  destruct (base_Int_part (x + / 2)) as [H1 H2].
  rewrite plus_IZR. lra.
Qed.

Lemma Rround_near (x : R) :
  exists k : Z, RealNumber.Rround x = IZR k /\ x - / 2 < IZR k <= x + / 2.
Proof.
  exists (Int_part (x + / 2)). split; [reflexivity|].
  destruct (base_Int_part (x + / 2)) as [H1 H2]. lra.
Qed.

End RimFacts.

(** X8: in exact arithmetic, [calculateRimRadius] is never negative;
    when the cut is within the sphere ([cutDistance^2 <= sphereRadius^2])
    the rim radius, the cut distance and the sphere radius make a right
    triangle; when the cut is at the sphere's surface or outside it, the
    rim radius is 0. *)
Theorem calculateRimRadius_pythagoras :
  forall sphereRadius cutDistance : R,
    (0 <= calculateRimRadius sphereRadius cutDistance)%R
    /\ ((cutDistance * cutDistance <= sphereRadius * sphereRadius)%R ->
        (calculateRimRadius sphereRadius cutDistance
         * calculateRimRadius sphereRadius cutDistance
         + cutDistance * cutDistance = sphereRadius * sphereRadius)%R)
    /\ ((sphereRadius * sphereRadius <= cutDistance * cutDistance)%R ->
        calculateRimRadius sphereRadius cutDistance = 0%R).
Proof.
  intros r d. unfold calculateRimRadius.
  cbn [Math_sqrt Math_max sub mul fromZ Number_R].
  split; [apply sqrt_pos|]. split; intros Hd.
  - rewrite Rmax_right by lra. rewrite sqrt_sqrt by lra. ring.
  - rewrite Rmax_left by lra. apply sqrt_0.
Qed.

(** The theorem on the 3-4-5 triangle, and on a cut outside the sphere. *)
Lemma calculateRimRadius_pythagoras_witness :
  (calculateRimRadius 5 3 * calculateRimRadius 5 3 + 3 * 3 = 5 * 5)%R
  /\ calculateRimRadius 100%R 200%R = 0%R.
Proof.
  split.
  - apply (calculateRimRadius_pythagoras 5%R 3%R). lra.
  - apply (calculateRimRadius_pythagoras 100%R 200%R). lra.
Defined.

(** X9: in exact arithmetic, for a quaternion of length 1,
    [rotatePoints] moves each point by the rotation of the quaternion,
    and that keeps the distance of every two points and the distance of
    every point to the origin: the figure is turned, not deformed. *)
Theorem rotatePoints_rigid :
  forall (points : list (Vector3 R)) (quaternion : Quaternion R),
    unitQuaternion quaternion ->
    rotatePoints points quaternion = map (rotate quaternion) points
    /\ (forall a b : Vector3 R,
          dist2 (THREE.applyQuaternion a quaternion) (THREE.applyQuaternion b quaternion)
          = dist2 a b)
    /\ (forall a : Vector3 R,
          dot (THREE.applyQuaternion a quaternion) (THREE.applyQuaternion a quaternion)
          = dot a a).
Proof.
  intros points q Hq. split.
  { unfold rotatePoints, THREE.clone. apply map_ext. intros p.
    apply applyQuaternion_rotate. exact Hq. }
  unfold unitQuaternion in Hq. destruct q as [x y z w]. cbn [qx qy qz qw] in Hq.
  split.
  - intros [a1 a2 a3] [b1 b2 b3].
    rewrite !applyQuaternion_rotate by exact Hq.
    unfold dist2, dot, minus, rotate, qmul, qconj. cbn [qx qy qz qw vx vy vz].
    transitivity ((x * x + y * y + z * z + w * w) * (x * x + y * y + z * z + w * w)
                  * ((a1 - b1) * (a1 - b1) + (a2 - b2) * (a2 - b2)
                     + (a3 - b3) * (a3 - b3)))%R; [ring|].
    rewrite Hq. ring.
  - intros [a1 a2 a3].
    rewrite !applyQuaternion_rotate by exact Hq.
    unfold dot, rotate, qmul, qconj. cbn [qx qy qz qw vx vy vz].
    transitivity ((x * x + y * y + z * z + w * w) * (x * x + y * y + z * z + w * w)
                  * (a1 * a1 + a2 * a2 + a3 * a3))%R; [ring|].
    rewrite Hq. ring.
Qed.

(** The theorem on a quarter of a point's way round the 3-4-5 quaternion. *)
Lemma rotatePoints_rigid_witness :
  dot (THREE.applyQuaternion (mkVector3 1 2 3) (mkQuaternion 0 0 (3 / 5) (4 / 5)))%R
      (THREE.applyQuaternion (mkVector3 1 2 3) (mkQuaternion 0 0 (3 / 5) (4 / 5)))%R
  = dot (mkVector3 1 2 3)%R (mkVector3 1 2 3)%R.
Proof.
  apply (rotatePoints_rigid [] (mkQuaternion 0 0 (3 / 5) (4 / 5))%R).
  unfold unitQuaternion. cbn [qx qy qz qw]. field.
Defined.

(** ** The face curve, the sphere, and the projection *)

(** X10: in exact arithmetic, the face curve of [landmarks.ts] is at the
    sphere's front ([radius]) on and above the equator; with the chin
    below the equator ([chinY < 0]) it is at [chinZ] at the chin's
    height, and between the equator and the chin it stays between
    [radius] and [chinZ]. *)
Theorem getFaceCurveZ_range :
  forall yPos radius chinY chinZ : R,
    ((0 <= yPos)%R -> getFaceCurveZ yPos radius chinY chinZ = radius)
    /\ ((chinY < 0)%R -> getFaceCurveZ chinY radius chinY chinZ = chinZ)
    /\ ((chinY < 0)%R -> (chinY <= yPos <= 0)%R ->
        (Rmin radius chinZ <= getFaceCurveZ yPos radius chinY chinZ
         <= Rmax radius chinZ)%R).
Proof.
  intros yPos radius chinY chinZ. unfold getFaceCurveZ.
  cbn [leb add sub mul div fromZ Number_R].
  split; [|split].
  - intros Hy. apply RealFacts.Rleb_true in Hy. rewrite Hy. reflexivity.
  - intros Hc.
    replace (RealNumber.Rleb 0 chinY) with false
      by (symmetry; apply RealFacts.Rleb_false; lra).
    field. lra.
  - intros Hc [Hlo Hhi].
    destruct (RealNumber.Rleb 0 yPos) eqn:E.
    + split; [apply Rmin_l|apply Rmax_l].
    + apply RealFacts.Rleb_false in E.
      set (t := ((yPos - 0) / (chinY - 0))%R).
      assert (Ht : (0 <= t <= 1)%R).
      { unfold t. replace ((yPos - 0) / (chinY - 0))%R
          with ((- yPos) / (- chinY))%R by (field; lra).
        split.
        - apply Rlt_le, Rdiv_lt_0_compat; lra.
        - apply Rmult_le_reg_r with (r := (- chinY)%R); [lra|].
          unfold Rdiv. rewrite Rmult_assoc, Rinv_l by lra. lra. }
      assert (Htt : (0 <= t * t <= 1)%R) by nra.
      pose proof (Rmin_l radius chinZ). pose proof (Rmin_r radius chinZ).
      pose proof (Rmax_l radius chinZ). pose proof (Rmax_r radius chinZ).
      split; nra.
Qed.

(** The theorem half way down to a chin set back by 20. *)
Lemma getFaceCurveZ_range_witness :
  (Rmin 100 80 <= getFaceCurveZ (-75) 100 (-150) 80 <= Rmax 100 80)%R.
Proof. apply getFaceCurveZ_range; lra. Defined.

(** X11: in exact arithmetic, the Crown is on the sphere of the head for
    every parameter record; so are Hairline and Brow, on its front
    half, when their height ratio is within [[-1, 1]]; and so are the
    two Jaw Start landmarks when [sideCut] is within [[-1, 1]]. *)
Theorem landmarks_on_sphere :
  forall params : HeadParams R,
    let ls := calculateLandmarks params in
    let r2 := (radius params * radius params)%R in
    (exists p, landmarkPosition "Crown" ls = Some p /\ dot p p = r2)
    /\ ((-1 <= hairlinePos params <= 1)%R ->
        exists p, landmarkPosition "Hairline" ls = Some p
                  /\ dot p p = r2 /\ (0 <= vz p)%R)
    /\ ((-1 <= browPos params <= 1)%R ->
        exists p, landmarkPosition "Brow" ls = Some p
                  /\ dot p p = r2 /\ (0 <= vz p)%R)
    /\ ((-1 <= sideCut params <= 1)%R ->
        exists l r, landmarkPosition "Jaw Start Left" ls = Some l
                    /\ landmarkPosition "Jaw Start Right" ls = Some r
                    /\ dot l l = r2 /\ dot r r = r2).
Proof.
  intros params ls r2. unfold ls, r2.
  assert (Hfront : forall ratio : R,
             (-1 <= ratio <= 1)%R ->
             dot (getPointOnSphereFront (radius params) ratio)
                 (getPointOnSphereFront (radius params) ratio)
             = (radius params * radius params)%R
             /\ (0 <= vz (getPointOnSphereFront (radius params) ratio))%R).
  { intros ratio Hr. unfold getPointOnSphereFront, dot.
    cbn [vx vy vz ltb sub mul Math_sqrt fromZ Number_R].
    set (r := radius params).
    assert (Hpos : (0 <= r * r - ratio * r * (ratio * r))%R).
    { replace (r * r - ratio * r * (ratio * r))%R
        with (r * r * ((1 - ratio) * (1 + ratio)))%R by ring.
      apply Rmult_le_pos; [apply Rle_0_sqr|apply Rmult_le_pos; lra]. }
    destruct (RealNumber.Rltb 0 (r * r - ratio * r * (ratio * r))) eqn:E; cbv iota.
    - split; [|apply sqrt_pos]. rewrite sqrt_sqrt by exact Hpos. lra.
    - apply RealFacts.Rltb_false in E. split; lra. }
  split; [|split; [|split]].
  - eexists. split; [reflexivity|]. unfold dot. cbn. ring.
  - intros Hr. eexists. split; [reflexivity|]. apply Hfront. exact Hr.
  - intros Hr. eexists. split; [reflexivity|]. apply Hfront. exact Hr.
  - intros Hs. eexists. eexists. split; [reflexivity|]. split; [reflexivity|].
    unfold dot. cbn.
    set (r := radius params). set (s := sideCut params) in *.
    assert (Hpos : (0 <= r * r - s * r * (s * r))%R).
    { replace (r * r - s * r * (s * r))%R
        with (r * r * ((1 - s) * (1 + s)))%R by ring.
      apply Rmult_le_pos; [apply Rle_0_sqr|apply Rmult_le_pos; lra]. }
    pose proof (sqrt_sqrt _ Hpos) as Hsq.
    split; lra.
Qed.

(** The theorem on the page's initial parameters. *)
Lemma landmarks_on_sphere_witness :
  exists p, landmarkPosition "Hairline" (calculateLandmarks (pageDefaults : HeadParams R))
            = Some p
            /\ dot p p = (100 * 100)%R /\ (0 <= vz p)%R.
Proof.
  destruct (landmarks_on_sphere pageDefaults) as (_ & H & _).
  apply H.
  unfold pageDefaults. cbn [hairlinePos]. lit_R. lra.
Defined.

(** X12: in exact arithmetic, [projectLandmarks] gives each landmark,
    under its name, whole pixel coordinates within half a pixel of
    [canvasWidth / 2 + x] and of [canvasHeight / 2 - y], and marks it
    visible exactly when its [z] is not negative. *)
Theorem projectLandmarks_half_pixel :
  forall (landmarks : list (Landmark R)) (canvasWidth canvasHeight : R),
    Forall2 (fun (l : Landmark R) (pl : ProjectedLandmark R) =>
               pname pl = name l
               /\ (exists kx ky : Z,
                      px pl = IZR kx /\ py pl = IZR ky
                      /\ (Rabs (px pl - (canvasWidth / 2 + vx (position l))) <= / 2)%R
                      /\ (Rabs (py pl - (canvasHeight / 2 - vy (position l))) <= / 2)%R)
               /\ (visible pl = true <-> (0 <= vz (position l))%R))
            landmarks (projectLandmarks landmarks canvasWidth canvasHeight).
Proof.
  intros landmarks w h. induction landmarks as [|l rest IH]; [constructor|].
  cbn [projectLandmarks map]. constructor; [|exact IH].
  cbn [pname px py visible add sub div leb Math_round fromZ Number_R].
  split; [reflexivity|]. split.
  - destruct (Rround_near (w / 2 + vx (position l))) as (kx & Hkx & Hbx).
    destruct (Rround_near (h / 2 - vy (position l))) as (ky & Hky & Hby).
    exists kx, ky. rewrite Hkx, Hky.
    repeat split; try (apply Rabs_le; lra).
  - apply RealFacts.Rleb_true.
Qed.

(** X13: in exact arithmetic, panning the head by a whole number of
    pixels with [applyPan] moves every projected landmark by that many
    pixels, to the right by [dx] and up by [dy] (the canvas y grows
    downwards), whatever the rotation, and leaves names and visibility
    as they were. *)
Theorem applyPan_shifts_projection :
  forall (landmarks : list (Landmark R)) (store : RotationStore R) (dx dy : Z)
         (canvasWidth canvasHeight : R),
    projectLandmarks
      (transformLandmarks landmarks
         (headRotation (applyPan (IZR dx) (IZR dy) store))
         (headPan (applyPan (IZR dx) (IZR dy) store)))
      canvasWidth canvasHeight
    = map (shiftProjected dx (- dy))
          (projectLandmarks
             (transformLandmarks landmarks (headRotation store) (headPan store))
             canvasWidth canvasHeight).
Proof.
  intros landmarks store dx dy w h.
  unfold projectLandmarks, transformLandmarks. rewrite !map_map.
  apply map_ext. intros l. unfold shiftProjected, applyPan, THREE.addVector.
  cbn [headRotation headPan pan_x pan_y name position pname px py visible
       vx vy vz add sub div leb Math_round fromZ Number_R].
  set (p := THREE.applyQuaternion (THREE.clone (position l)) (headRotation store)).
  f_equal.
  - rewrite <- Rround_shift. f_equal. ring.
  - rewrite <- Rround_shift. f_equal. rewrite opp_IZR. ring.
Qed.

(** ** The wireframe component *)

Section ComponentFacts.
Local Open Scope R_scope.

Lemma nth_error_map_seq {A : Type} (f : nat -> A) (n i : nat) :
  (i < n)%nat -> nth_error (map f (seq 0 n)) i = Some (f i).
Proof.
  intros Hi. rewrite nth_error_map, nth_error_seq.
  apply Nat.ltb_lt in Hi. rewrite Hi. reflexivity.
Qed.

(** The two copies of the face curve agree. *)
Lemma getFaceCurveZ_same (params : HeadParams R) (yPos : R) :
  LoomisHead3D.getFaceCurveZ params yPos
  = getFaceCurveZ yPos (radius params) (LoomisHead3D.chinY params)
                  (LoomisHead3D.chinZ params).
Proof.
  unfold LoomisHead3D.getFaceCurveZ, getFaceCurveZ.
  cbn [leb add sub mul div fromZ Number_R]. rewrite !Rminus_0_r. reflexivity.
Qed.

(** The ends and the middle of a parabola of 32 steps. *)
Lemma generateChinCurvePoints_ends (yPos widthHalf curveDepth baseZ : R) :
  0 < widthHalf ->
  let curve := LoomisHead3D.generateChinCurvePoints yPos widthHalf curveDepth baseZ 32 in
  nth_error curve 0 = Some (mkVector3 (- widthHalf) yPos (baseZ - curveDepth))
  /\ nth_error curve 16 = Some (mkVector3 0 yPos baseZ)
  /\ nth_error curve 32 = Some (mkVector3 widthHalf yPos (baseZ - curveDepth)).
Proof.
  intros Hw curve. unfold curve, LoomisHead3D.generateChinCurvePoints.
  rewrite !nth_error_map_seq by lia.
  cbn [ltb add sub mul div neg fromZ Number_R Z.of_nat Pos.of_succ_nat Pos.succ].
  apply RealFacts.Rltb_true in Hw. rewrite Hw. apply RealFacts.Rltb_true in Hw.
  repeat split; f_equal; apply Vector3_eq; try reflexivity; field; lra.
Qed.

End ComponentFacts.

(** X14: in exact arithmetic, [splitLine] gives a line with both ends in
    front as one front piece, a line with both ends behind as one back
    piece, and cuts a line that crosses [z = 0] at the point of the line
    where [z] is 0: the piece from [p1] to that point and the piece from
    that point to [p2], each on its side. *)
Theorem splitLine_cuts_at_zero :
  forall p1 p2 : Vector3 R,
    ((0 <= vz p1)%R -> (0 <= vz p2)%R ->
     LoomisHead3D.splitLine p1 p2 = mkFrontBack [[p1; p2]] [])
    /\ ((vz p1 < 0)%R -> (vz p2 < 0)%R ->
        LoomisHead3D.splitLine p1 p2 = mkFrontBack [] [[p1; p2]])
    /\ ((0 <= vz p1)%R -> (vz p2 < 0)%R ->
        exists mid, vz mid = 0%R /\ between p1 p2 mid
                    /\ LoomisHead3D.splitLine p1 p2
                       = mkFrontBack [[p1; mid]] [[mid; p2]])
    /\ ((vz p1 < 0)%R -> (0 <= vz p2)%R ->
        exists mid, vz mid = 0%R /\ between p1 p2 mid
                    /\ LoomisHead3D.splitLine p1 p2
                       = mkFrontBack [[mid; p2]] [[p1; mid]]).
Proof.
  intros p1 p2. unfold LoomisHead3D.splitLine, THREE.clone.
  cbn [leb ltb sub div fromZ Number_R].
  split; [|split; [|split]].
  - intros H1 H2. apply RealFacts.Rleb_true in H1. apply RealFacts.Rleb_true in H2.
    rewrite H1, H2. reflexivity.
  - intros H1 H2.
    replace (RealNumber.Rleb 0 (vz p1)) with false
      by (symmetry; apply RealFacts.Rleb_false; lra).
    apply RealFacts.Rltb_true in H1. apply RealFacts.Rltb_true in H2.
    rewrite H1, H2. reflexivity.
  - intros H1 H2.
    replace (RealNumber.Rleb 0 (vz p2)) with false
      by (symmetry; apply RealFacts.Rleb_false; lra).
    replace (RealNumber.Rltb (vz p1) 0) with false
      by (symmetry; apply RealFacts.Rltb_false; lra).
    apply RealFacts.Rleb_true in H1. rewrite H1. cbn [andb].
    apply RealFacts.Rleb_true in H1.
    eexists. split; [|split; [|reflexivity]].
    + unfold THREE.lerpVectors. cbn [vz add sub mul Number_R]. field. lra.
    + exists (vz p1 / (vz p1 - vz p2))%R. split; [|reflexivity]. split.
      * apply Rmult_le_pos; [lra|]. apply Rlt_le, Rinv_0_lt_compat. lra.
      * apply Rmult_le_reg_r with (r := (vz p1 - vz p2)%R); [lra|].
        unfold Rdiv. rewrite Rmult_assoc, Rinv_l by lra. lra.
  - intros H1 H2.
    replace (RealNumber.Rleb 0 (vz p1)) with false
      by (symmetry; apply RealFacts.Rleb_false; lra).
    replace (RealNumber.Rltb (vz p2) 0) with false
      by (symmetry; apply RealFacts.Rltb_false; lra).
    rewrite andb_false_r. cbn [andb].
    eexists. split; [|split; [|reflexivity]].
    + unfold THREE.lerpVectors. cbn [vz add sub mul Number_R]. field. lra.
    + exists (vz p1 / (vz p1 - vz p2))%R. split; [|reflexivity].
      replace (vz p1 / (vz p1 - vz p2))%R with ((- vz p1) / (vz p2 - vz p1))%R
        by (field; lra).
      split.
      * apply Rmult_le_pos; [lra|]. apply Rlt_le, Rinv_0_lt_compat. lra.
      * apply Rmult_le_reg_r with (r := (vz p2 - vz p1)%R); [lra|].
        unfold Rdiv. rewrite Rmult_assoc, Rinv_l by lra. lra.
Qed.

(** The theorem on a line from [z = 1] to [z = -3]. *)
Lemma splitLine_cuts_at_zero_witness :
  exists mid, vz mid = 0%R
              /\ between (mkVector3 0 0 1)%R (mkVector3 4 0 (-3))%R mid
              /\ LoomisHead3D.splitLine (mkVector3 0 0 1)%R (mkVector3 4 0 (-3))%R
                 = mkFrontBack [[mkVector3 0 0 1; mid]]%R [[mid; mkVector3 4 0 (-3)]]%R.
Proof.
  apply (splitLine_cuts_at_zero (mkVector3 0 0 1)%R (mkVector3 4 0 (-3))%R);
    cbn [vz]; lra.
Defined.

(** X15: in exact arithmetic, when the half widths of eye, nose, mouth
    and chin are positive, each feature curve the component draws starts
    at the feature's Left landmark of [calculateLandmarks], passes its
    centre landmark at the middle point, and ends at its Right
    landmark. *)
Theorem feature_curves_through_landmarks :
  forall params : HeadParams R,
    (0 < eyeWidth params * radius params)%R ->
    (0 < noseWidth params * radius params)%R ->
    (0 < mouthWidth params * radius params)%R ->
    (0 < chinWidth params * radius params)%R ->
    let ls := calculateLandmarks params in
    curveThrough (LoomisHead3D.eyeCurvePoints params) ls
                 "Eye Left" "Eye Center" "Eye Right"
    /\ curveThrough (LoomisHead3D.noseCurvePoints params) ls
                    "Nose Left" "Nose Center" "Nose Right"
    /\ curveThrough (LoomisHead3D.mouthCurvePoints params) ls
                    "Mouth Left" "Mouth Center" "Mouth Right"
    /\ curveThrough (LoomisHead3D.chinCurvePoints params) ls
                    "Chin Left" "Chin" "Chin Right".
Proof.
  intros params He Hn Hm Hc ls.
  unfold curveThrough, LoomisHead3D.eyeCurvePoints, LoomisHead3D.noseCurvePoints,
    LoomisHead3D.mouthCurvePoints, LoomisHead3D.chinCurvePoints,
    LoomisHead3D.defaultNumSegments.
  rewrite !getFaceCurveZ_same.
  pose proof (generateChinCurvePoints_ends (LoomisHead3D.eyeLineY params)
                (LoomisHead3D.eyeWidthHalf params) (LoomisHead3D.eyeCurveDepth params)
                (getFaceCurveZ (LoomisHead3D.eyeLineY params) (radius params)
                   (LoomisHead3D.chinY params) (LoomisHead3D.chinZ params)) He)
    as (E1 & E2 & E3).
  pose proof (generateChinCurvePoints_ends (LoomisHead3D.noseLineY params)
                (LoomisHead3D.noseWidthHalf params) (LoomisHead3D.noseCurveDepth params)
                (getFaceCurveZ (LoomisHead3D.noseLineY params) (radius params)
                   (LoomisHead3D.chinY params) (LoomisHead3D.chinZ params)) Hn)
    as (N1 & N2 & N3).
  pose proof (generateChinCurvePoints_ends (LoomisHead3D.mouthLineY params)
                (LoomisHead3D.mouthWidthHalf params) (LoomisHead3D.mouthCurveDepth params)
                (getFaceCurveZ (LoomisHead3D.mouthLineY params) (radius params)
                   (LoomisHead3D.chinY params) (LoomisHead3D.chinZ params)) Hm)
    as (M1 & M2 & M3).
  pose proof (generateChinCurvePoints_ends (LoomisHead3D.chinY params)
                (LoomisHead3D.chinWidthHalf params) (LoomisHead3D.chinCurveHeight params)
                (LoomisHead3D.chinZ params) Hc)
    as (C1 & C2 & C3).
  rewrite E1, E2, E3, N1, N2, N3, M1, M2, M3, C1, C2, C3.
  repeat split; reflexivity.
Qed.

(** The theorem on the page's initial parameters. *)
Lemma feature_curves_through_landmarks_witness :
  curveThrough (LoomisHead3D.eyeCurvePoints (pageDefaults : HeadParams R))
               (calculateLandmarks pageDefaults) "Eye Left" "Eye Center" "Eye Right".
Proof.
  refine (proj1 (feature_curves_through_landmarks pageDefaults _ _ _ _));
    unfold pageDefaults; cbn [eyeWidth noseWidth mouthWidth chinWidth radius];
    lit_R; lra.
Defined.

(** X16: in exact arithmetic, a parabola of [generateChinCurvePoints]
    is its own mirror image in the plane [x = 0]: for every width (zero
    and negative ones too) and every [numSegments > 0], the point
    [numSegments - i] is the point [i] with its x negated. *)
Theorem generateChinCurvePoints_symmetric :
  forall (yPos widthHalf curveDepth baseZ : R) (numSegments i : nat),
    (0 < numSegments)%nat -> (i <= numSegments)%nat ->
    let curve :=
      LoomisHead3D.generateChinCurvePoints yPos widthHalf curveDepth baseZ numSegments in
    nth_error curve (numSegments - i) = option_map mirrorX (nth_error curve i).
Proof.
  intros yPos w cd bz n i Hn Hi curve.
  unfold curve, LoomisHead3D.generateChinCurvePoints.
  rewrite !nth_error_map_seq by lia. cbn [option_map]. f_equal.
  unfold mirrorX.
  cbn [vx vy vz ltb add sub mul div neg fromZ Number_R].
  rewrite <- !INR_IZR_INZ, minus_INR by exact Hi.
  assert (Hn0 : INR n <> 0%R) by (apply not_0_INR; lia).
  destruct (RealNumber.Rltb 0 w) eqn:Ew.
  - apply RealFacts.Rltb_true in Ew. apply Vector3_eq; [|reflexivity|]; field; lra.
  - apply Vector3_eq; [|reflexivity|reflexivity]. field. exact Hn0.
Qed.

(** The theorem on the default curve: point 32 mirrors point 0. *)
Lemma generateChinCurvePoints_symmetric_witness :
  nth_error (LoomisHead3D.generateChinCurvePoints (-15) 40 20 100 32)%R (32 - 0)
  = option_map mirrorX
      (nth_error (LoomisHead3D.generateChinCurvePoints (-15) 40 20 100 32)%R 0).
Proof. apply generateChinCurvePoints_symmetric; lia. Defined.

(** X17: in exact arithmetic, with the chin below the equator
    ([chinY < 0]), the chin line the component draws runs on the face
    curve that places the eye, nose and mouth landmarks: every point of
    it has [x = 0] and its [z] is [getFaceCurveZ] of its [y]; it starts
    at the front of the sphere on the equator and ends at the Chin
    landmark. *)
Theorem chin_line_on_face_curve :
  forall params : HeadParams R,
    (LoomisHead3D.chinY params < 0)%R ->
    let line := LoomisHead3D.chinLinePoints params in
    Forall (fun p => vx p = 0%R
                     /\ vz p = getFaceCurveZ (vy p) (radius params)
                                 (LoomisHead3D.chinY params) (LoomisHead3D.chinZ params))
           line
    /\ nth_error line 0 = Some (mkVector3 0%R 0%R (radius params))
    /\ nth_error line 32 = landmarkPosition "Chin" (calculateLandmarks params).
Proof.
  intros params Hc line.
  unfold line, LoomisHead3D.chinLinePoints, LoomisHead3D.generateChinLinePoints,
    LoomisHead3D.defaultNumSegments.
  split; [|split].
  - apply Forall_forall. intros p Hp. apply in_map_iff in Hp.
    destruct Hp as (i & <- & Hi). apply in_seq in Hi.
    cbn [vx vy vz add sub mul div fromZ Number_R]. split; [reflexivity|].
    unfold getFaceCurveZ. cbn [leb add sub mul div fromZ Number_R].
    rewrite <- !INR_IZR_INZ. set (c := LoomisHead3D.chinY params) in *.
    assert (H32 : INR 32 <> 0%R) by (apply not_0_INR; lia).
    pose proof (pos_INR i) as Hi0. pose proof (pos_INR 32) as H320.
    destruct (RealNumber.Rleb 0 (0 + INR i / INR 32 * (c - 0))) eqn:E.
    + apply RealFacts.Rleb_true in E.
      assert (Hz : (INR i / INR 32 = 0)%R).
      { assert (Hq : (0 <= INR i / INR 32)%R)
          by (apply Rmult_le_pos; [exact Hi0|apply Rlt_le, Rinv_0_lt_compat; lra]).
        nra. }
      rewrite Hz. ring.
    + field. split; [exact H32|lra].
  - rewrite nth_error_map_seq by lia.
    cbn [add sub mul div fromZ Number_R Z.of_nat]. f_equal. apply Vector3_eq; field.
  - rewrite nth_error_map_seq by lia. unfold landmarkPosition.
    cbn [findLandmark calculateLandmarks find name String.eqb Ascii.eqb Bool.eqb
         andb option_map position].
    unfold LoomisHead3D.chinY, LoomisHead3D.chinZ.
    cbn [add sub mul div neg fromZ Number_R Z.of_nat Pos.of_succ_nat Pos.succ].
    f_equal. apply Vector3_eq; field.
Qed.

(** The theorem on the page's initial parameters, whose chin is at -135. *)
Lemma chin_line_on_face_curve_witness :
  nth_error (LoomisHead3D.chinLinePoints (pageDefaults : HeadParams R)) 32
  = landmarkPosition "Chin" (calculateLandmarks (pageDefaults : HeadParams R)).
Proof.
  refine (proj2 (proj2 (chin_line_on_face_curve pageDefaults _))).
  unfold LoomisHead3D.chinY, pageDefaults. cbn [chinPos radius].
  lit_R. cbn [add sub mul neg Number_R]. lra.
Defined.

(** X18: in exact arithmetic, [generateFeatureLine] gives nothing when
    the height is at a pole of the sphere or beyond ([|y| >= |radius|]),
    and otherwise 129 points, each at the height [yRatio * radius] and
    on the sphere of the head. *)
Theorem generateFeatureLine_on_sphere :
  forall radius yRatio : R,
    let line := LoomisHead3D.generateFeatureLine radius yRatio in
    let y := (yRatio * radius)%R in
    ((radius * radius <= y * y)%R -> line = [])
    /\ ((y * y < radius * radius)%R ->
        List.length line = 129%nat
        /\ Forall (fun p => vy p = y /\ dot p p = (radius * radius)%R) line).
Proof.
  intros radius yRatio line y. unfold line, y.
  unfold LoomisHead3D.generateFeatureLine, LoomisHead3D.getHorizontalCircleRadius.
  cbn [leb ltb sub mul Math_sqrt fromZ Number_R].
  set (r := radius). set (h := (yRatio * r)%R).
  split.
  - intros Hy.
    replace (RealNumber.Rltb 0 (r * r - h * h)) with false
      by (symmetry; apply RealFacts.Rltb_false; lra).
    replace (RealNumber.Rleb 0 0) with true
      by (symmetry; apply RealFacts.Rleb_true; lra).
    reflexivity.
  - intros Hy.
    replace (RealNumber.Rltb 0 (r * r - h * h)) with true
      by (symmetry; apply RealFacts.Rltb_true; lra).
    assert (Hs : (0 < sqrt (r * r - h * h))%R) by (apply sqrt_lt_R0; lra).
    replace (RealNumber.Rleb (sqrt (r * r - h * h)) 0) with false
      by (symmetry; apply RealFacts.Rleb_false; exact Hs).
    assert (Hn : (0 < dot (mkVector3 0 1 0) (mkVector3 0 1 0))%R)
      by (unfold dot; cbn [vx vy vz]; lra).
    destruct (circleOnPlane_on_circle (mkVector3 0 h 0)%R (mkVector3 0 1 0)%R
                (sqrt (r * r - h * h)) LoomisHead3D.segments Hn)
      as (Hlen & Hall & _).
    split; [exact Hlen|].
    eapply Forall_impl; [|exact Hall].
    intros [a b c] [Hplane Hdist].
    unfold dist2, dot, minus in *. cbn [vx vy vz] in *.
    rewrite sqrt_sqrt in Hdist by lra.
    assert (Hb : b = h) by lra. subst b. split; [reflexivity|]. nra.
Qed.

(** The theorem on the hairline of the page's initial head. *)
Lemma generateFeatureLine_on_sphere_witness :
  List.length (LoomisHead3D.generateFeatureLine 100 (/ 2))%R = 129%nat.
Proof.
  refine (proj1 (proj2 (generateFeatureLine_on_sphere 100 (/ 2))%R _)). lra.
Defined.

(** X19: in exact arithmetic, for every rotation the two rim planes
    never face the camera together: their normals are opposite, so at
    most one of [leftRimFacesCamera] and [rightRimFacesCamera] holds. *)
Theorem rims_never_both_face_camera :
  forall rotation : Quaternion R,
    vz (LoomisHead3D.leftRimNormal rotation)
    = (- vz (LoomisHead3D.rightRimNormal rotation))%R
    /\ LoomisHead3D.leftRimFacesCamera rotation
       && LoomisHead3D.rightRimFacesCamera rotation = false.
Proof.
  intros [x y z w].
  assert (Hz : vz (LoomisHead3D.leftRimNormal (mkQuaternion x y z w))
               = (- vz (LoomisHead3D.rightRimNormal (mkQuaternion x y z w)))%R).
  { unfold LoomisHead3D.leftRimNormal, LoomisHead3D.rightRimNormal, THREE.applyQuaternion.
    cbn [qx qy qz qw vx vy vz add sub mul fromZ Number_R]. ring. }
  split; [exact Hz|].
  unfold LoomisHead3D.leftRimFacesCamera, LoomisHead3D.rightRimFacesCamera.
  cbn [ltb fromZ Number_R]. rewrite Hz.
  destruct (RealNumber.Rltb 0 (- _)) eqn:E1; [|reflexivity].
  apply RealFacts.Rltb_true in E1. cbn [andb].
  apply RealFacts.Rltb_false. lra.
Qed.

(** ** The rotation store *)

Section RotationStoreFacts.
Local Open Scope R_scope.

Lemma multiplyQuaternions_qmul (a b : Quaternion R) :
  THREE_Quaternion.multiplyQuaternions a b = qmul a b.
Proof.
  unfold THREE_Quaternion.multiplyQuaternions, qmul.
  cbn [qx qy qz qw add sub mul Number_R]. f_equal; ring.
Qed.

Lemma unitQuaternion_qmul (a b : Quaternion R) :
  unitQuaternion a -> unitQuaternion b -> unitQuaternion (qmul a b).
Proof.
  unfold unitQuaternion, qmul. destruct a as [ax ay az aw], b as [bx b_y bz bw].
  cbn [qx qy qz qw]. intros Ha Hb.
  transitivity ((ax * ax + ay * ay + az * az + aw * aw)
                * (bx * bx + b_y * b_y + bz * bz + bw * bw)); [ring|].
  rewrite Ha, Hb. ring.
Qed.

Lemma sin_cos_1 (x : R) : sin x * sin x + cos x * cos x = 1.
Proof. pose proof (sin2_cos2 x) as Hx. unfold Rsqr in Hx. exact Hx. Qed.

Lemma unitQuaternion_setFromAxisAngle (axis : Vector3 R) (angle : R) :
  dot axis axis = 1 -> unitQuaternion (THREE_Quaternion.setFromAxisAngle axis angle).
Proof.
  unfold unitQuaternion, THREE_Quaternion.setFromAxisAngle, dot.
  cbn [qx qy qz qw mul div fromZ Number_R Math_sin Math_cos Trig_R]. intros Ha.
  pose proof (sin_cos_1 (angle / 2)) as Hsc.
  transitivity ((vx axis * vx axis + vy axis * vy axis + vz axis * vz axis)
                * (sin (angle / 2) * sin (angle / 2))
                + cos (angle / 2) * cos (angle / 2)); [ring|].
  rewrite Ha. lra.
Qed.

Lemma unitQuaternion_setFromEulerXYZ (x y z : R) :
  unitQuaternion (THREE_Quaternion.setFromEulerXYZ x y z).
Proof.
  unfold unitQuaternion, THREE_Quaternion.setFromEulerXYZ.
  cbn [qx qy qz qw add sub mul div fromZ Number_R Math_sin Math_cos Trig_R].
  pose proof (sin_cos_1 (x / 2)) as H1. pose proof (sin_cos_1 (y / 2)) as H2.
  pose proof (sin_cos_1 (z / 2)) as H3.
  transitivity ((sin (x / 2) * sin (x / 2) + cos (x / 2) * cos (x / 2))
                * (sin (y / 2) * sin (y / 2) + cos (y / 2) * cos (y / 2))
                * (sin (z / 2) * sin (z / 2) + cos (z / 2) * cos (z / 2))); [ring|].
  rewrite H1, H2, H3. ring.
Qed.

Lemma unitQuaternion_identity : unitQuaternion THREE.newQuaternion.
Proof.
  unfold unitQuaternion, THREE.newQuaternion. cbn [qx qy qz qw fromZ Number_R]. ring.
Qed.

(** The rotation of a quaternion as a matrix. *)
Lemma rotate_matrix (x y z w a b c : R) :
  rotate (mkQuaternion x y z w) (mkVector3 a b c)
  = mkVector3
      ((w * w + x * x - y * y - z * z) * a + 2 * (x * y - w * z) * b
       + 2 * (x * z + w * y) * c)
      (2 * (x * y + w * z) * a + (w * w - x * x + y * y - z * z) * b
       + 2 * (y * z - w * x) * c)
      (2 * (x * z - w * y) * a + 2 * (y * z + w * x) * b
       + (w * w - x * x - y * y + z * z) * c).
Proof.
  unfold rotate, qmul, qconj. cbn [qx qy qz qw vx vy vz]. apply Vector3_eq; ring.
Qed.

(** Rotating by a product is rotating twice. *)
Lemma rotate_qmul (d q : Quaternion R) (v : Vector3 R) :
  rotate (qmul d q) v = rotate d (rotate q v).
Proof.
  destruct d as [dx dy dz dw], q as [x y z w], v as [a b c].
  unfold qmul. cbn [qx qy qz qw]. rewrite !rotate_matrix.
  apply Vector3_eq; ring.
Qed.

Lemma applyQuaternion_qmul (d q : Quaternion R) (v : Vector3 R) :
  unitQuaternion d -> unitQuaternion q ->
  THREE.applyQuaternion v (qmul d q)
  = THREE.applyQuaternion (THREE.applyQuaternion v q) d.
Proof.
  intros Hd Hq.
  rewrite (applyQuaternion_rotate _ _ (unitQuaternion_qmul _ _ Hd Hq)).
  rewrite (applyQuaternion_rotate _ _ Hq), (applyQuaternion_rotate _ _ Hd).
  apply rotate_qmul.
Qed.

End RotationStoreFacts.

(** X20: in exact arithmetic, the orientation in the store is a unit
    quaternion when the store is created, and every function of the
    store keeps it one: [applyRotation] and [applyLocalRotation] about
    an axis of length 1, [resetRotation], [setRotationFromEuler],
    [applyPan] and [resetPan]. *)
Theorem store_orientation_unit :
  unitStore initialStore
  /\ forall st : RotationStore R,
       unitStore st ->
       (forall (axis : Vector3 R) (angle : R),
           dot axis axis = 1%R ->
           unitStore (applyRotation axis angle st)
           /\ unitStore (applyLocalRotation axis angle st))
       /\ unitStore (resetRotation st)
       /\ (forall x y z : R, unitStore (setRotationFromEuler x y z st))
       /\ (forall dx dy : R, unitStore (applyPan dx dy st))
       /\ unitStore (resetPan st).
Proof.
  split; [apply unitQuaternion_identity|].
  intros st Hst. unfold unitStore in *.
  split; [|split; [|split; [|split]]].
  - intros axis angle Ha.
    pose proof (unitQuaternion_setFromAxisAngle axis angle Ha) as Hd.
    unfold applyRotation, applyLocalRotation, THREE_Quaternion.premultiply,
      THREE_Quaternion.multiply, THREE_Quaternion.clone.
    cbn [headRotation]. rewrite !multiplyQuaternions_qmul.
    split; apply unitQuaternion_qmul; assumption.
  - apply unitQuaternion_identity.
  - intros x y z. apply unitQuaternion_setFromEulerXYZ.
  - intros dx dy. exact Hst.
  - exact Hst.
Qed.

(** The theorem on one degree about the vertical axis, from the start. *)
Lemma store_orientation_unit_witness :
  unitStore (Page.rotateY 1%R initialStore).
Proof.
  destruct store_orientation_unit as [H0 Hstep].
  destruct (Hstep initialStore H0) as [Hrot _].
  unfold Page.rotateY.
  refine (proj1 (Hrot _ _ _)).
  unfold dot. cbn [vx vy vz fromZ Number_R]. ring.
Defined.

(** X21: in exact arithmetic, with a unit orientation in the store and
    an axis of length 1: after [applyRotation] a point of the head is
    turned by the old orientation first and by the new rotation after
    (a rotation in the space of the screen); after [applyLocalRotation]
    it is turned by the new rotation first and by the old orientation
    after (a rotation in the space of the head). *)
Theorem applyRotation_world_local :
  forall (st : RotationStore R) (axis : Vector3 R) (angle : R) (v : Vector3 R),
    unitStore st -> dot axis axis = 1%R ->
    THREE.applyQuaternion v (headRotation (applyRotation axis angle st))
    = THREE.applyQuaternion (THREE.applyQuaternion v (headRotation st))
                            (THREE_Quaternion.setFromAxisAngle axis angle)
    /\ THREE.applyQuaternion v (headRotation (applyLocalRotation axis angle st))
       = THREE.applyQuaternion
           (THREE.applyQuaternion v (THREE_Quaternion.setFromAxisAngle axis angle))
           (headRotation st).
Proof.
  intros st axis angle v Hst Ha. unfold unitStore in Hst.
  pose proof (unitQuaternion_setFromAxisAngle axis angle Ha) as Hd.
  unfold applyRotation, applyLocalRotation, THREE_Quaternion.premultiply,
    THREE_Quaternion.multiply, THREE_Quaternion.clone.
  cbn [headRotation]. rewrite !multiplyQuaternions_qmul.
  split; apply applyQuaternion_qmul; assumption.
Qed.

(** The theorem on a half turn about the vertical axis, from the start. *)
Lemma applyRotation_world_local_witness :
  THREE.applyQuaternion (mkVector3 1 2 3)%R
    (headRotation (applyRotation (mkVector3 0 1 0)%R PI initialStore))
  = THREE.applyQuaternion
      (THREE.applyQuaternion (mkVector3 1 2 3)%R (headRotation initialStore))
      (THREE_Quaternion.setFromAxisAngle (mkVector3 0 1 0)%R PI).
Proof.
  refine (proj1 (applyRotation_world_local initialStore (mkVector3 0 1 0)%R PI
                  (mkVector3 1 2 3)%R _ _)).
  - apply unitQuaternion_identity.
  - unfold dot. cbn [vx vy vz]. ring.
Defined.

Section AxisFacts.
Local Open Scope R_scope.

Lemma cos_double (a : R) : cos a = cos (a / 2) * cos (a / 2) - sin (a / 2) * sin (a / 2).
Proof. replace a with (2 * (a / 2)) at 1 by field. apply cos_2a. Qed.

Lemma sin_double (a : R) : sin a = 2 * sin (a / 2) * cos (a / 2).
Proof. replace a with (2 * (a / 2)) at 1 by field. apply sin_2a. Qed.

(** The axis-angle quaternions about the three axes are the turns by
    the whole angle. *)
Lemma applyQuaternion_axisX (a : R) (p : Vector3 R) :
  THREE.applyQuaternion p (THREE_Quaternion.setFromAxisAngle (mkVector3 1 0 0) a)
  = turnX a p.
Proof.
  destruct p as [x y z]. unfold turnX. rewrite (cos_double a), (sin_double a).
  unfold THREE.applyQuaternion, THREE_Quaternion.setFromAxisAngle.
  cbn [qx qy qz qw vx vy vz add sub mul div fromZ Number_R Math_sin Math_cos Trig_R].
  pose proof (sin_cos_1 (a / 2)) as Hsc.
  set (s := sin (a / 2)) in *. set (c := cos (a / 2)) in *.
  assert (Hy : y * (s * s + c * c) = y) by (rewrite Hsc; ring).
  assert (Hz : z * (s * s + c * c) = z) by (rewrite Hsc; ring).
  apply Vector3_eq; lra.
Qed.

Lemma applyQuaternion_axisY (a : R) (p : Vector3 R) :
  THREE.applyQuaternion p (THREE_Quaternion.setFromAxisAngle (mkVector3 0 1 0) a)
  = turnY a p.
Proof.
  destruct p as [x y z]. unfold turnY. rewrite (cos_double a), (sin_double a).
  unfold THREE.applyQuaternion, THREE_Quaternion.setFromAxisAngle.
  cbn [qx qy qz qw vx vy vz add sub mul div fromZ Number_R Math_sin Math_cos Trig_R].
  pose proof (sin_cos_1 (a / 2)) as Hsc.
  set (s := sin (a / 2)) in *. set (c := cos (a / 2)) in *.
  assert (Hx : x * (s * s + c * c) = x) by (rewrite Hsc; ring).
  assert (Hz : z * (s * s + c * c) = z) by (rewrite Hsc; ring).
  apply Vector3_eq; lra.
Qed.

Lemma applyQuaternion_axisZ (a : R) (p : Vector3 R) :
  THREE.applyQuaternion p (THREE_Quaternion.setFromAxisAngle (mkVector3 0 0 1) a)
  = turnZ a p.
Proof.
  destruct p as [x y z]. unfold turnZ. rewrite (cos_double a), (sin_double a).
  unfold THREE.applyQuaternion, THREE_Quaternion.setFromAxisAngle.
  cbn [qx qy qz qw vx vy vz add sub mul div fromZ Number_R Math_sin Math_cos Trig_R].
  pose proof (sin_cos_1 (a / 2)) as Hsc.
  set (s := sin (a / 2)) in *. set (c := cos (a / 2)) in *.
  assert (Hx : x * (s * s + c * c) = x) by (rewrite Hsc; ring).
  assert (Hy : y * (s * s + c * c) = y) by (rewrite Hsc; ring).
  apply Vector3_eq; lra.
Qed.

Lemma unit_axes :
  dot (mkVector3 1 0 0) (mkVector3 1 0 0) = 1
  /\ dot (mkVector3 0 1 0) (mkVector3 0 1 0) = 1
  /\ dot (mkVector3 0 0 1) (mkVector3 0 0 1) = 1.
Proof. unfold dot. cbn [vx vy vz]. repeat split; ring. Qed.

(** A point under the orientation after a rotation in world space. *)
Lemma applyRotation_point (st : RotationStore R) (axis : Vector3 R) (angle : R)
    (v : Vector3 R) :
  unitStore st -> dot axis axis = 1 ->
  THREE.applyQuaternion v (headRotation (applyRotation axis angle st))
  = THREE.applyQuaternion (THREE.applyQuaternion v (headRotation st))
                          (THREE_Quaternion.setFromAxisAngle axis angle).
Proof.
  intros Hst Ha. unfold unitStore in Hst.
  unfold applyRotation, THREE_Quaternion.premultiply, THREE_Quaternion.clone.
  cbn [headRotation]. rewrite multiplyQuaternions_qmul.
  apply applyQuaternion_qmul; [apply unitQuaternion_setFromAxisAngle; exact Ha|exact Hst].
Qed.

End AxisFacts.

(** X22: in exact arithmetic, with a unit orientation in the store, the
    page's [rotateX], [rotateY] and [rotateZ] turn every point of the
    head, as it stands on the screen, about the screen's x, y and z axis
    by [direction] degrees ([direction * pi / 180] radians). *)
Theorem page_rotations_turn_by_degrees :
  forall (st : RotationStore R) (direction : R) (v : Vector3 R),
    unitStore st ->
    let a := (direction * (PI / 180))%R in
    let p := THREE.applyQuaternion v (headRotation st) in
    THREE.applyQuaternion v (headRotation (Page.rotateX direction st)) = turnX a p
    /\ THREE.applyQuaternion v (headRotation (Page.rotateY direction st)) = turnY a p
    /\ THREE.applyQuaternion v (headRotation (Page.rotateZ direction st)) = turnZ a p.
Proof.
  intros st direction v Hst a p. destruct unit_axes as (HX & HY & HZ).
  unfold Page.rotateX, Page.rotateY, Page.rotateZ, Page.rotationStep.
  cbn [fromZ mul div Number_R Math_PI Trig_R]. fold a.
  rewrite (applyRotation_point st (mkVector3 1 0 0) a v Hst HX)%R.
  rewrite (applyRotation_point st (mkVector3 0 1 0) a v Hst HY)%R.
  rewrite (applyRotation_point st (mkVector3 0 0 1) a v Hst HZ)%R.
  fold p. split; [apply applyQuaternion_axisX|].
  split; [apply applyQuaternion_axisY|apply applyQuaternion_axisZ].
Qed.

(** The theorem on the first press of a button, from the start. *)
Lemma page_rotations_turn_by_degrees_witness :
  THREE.applyQuaternion (mkVector3 1 2 3)%R (headRotation (Page.rotateY 1%R initialStore))
  = turnY (1 * (PI / 180))%R
          (THREE.applyQuaternion (mkVector3 1 2 3)%R (headRotation initialStore)).
Proof.
  refine (proj1 (proj2 (page_rotations_turn_by_degrees initialStore 1%R
                          (mkVector3 1 2 3)%R _))).
  apply unitQuaternion_identity.
Defined.

(** X23: in exact arithmetic, [setRotationFromEuler(x, y, z)] sets the
    orientation that three rotations in head space give from the
    identity: about the head's X axis by [x], then about its Y axis by
    [y], then about its Z axis by [z]. *)
Theorem setRotationFromEuler_local_rotations :
  forall (x y z : R) (st : RotationStore R),
    setRotationFromEuler x y z st
    = applyLocalRotation (mkVector3 0 0 1)%R z
        (applyLocalRotation (mkVector3 0 1 0)%R y
           (applyLocalRotation (mkVector3 1 0 0)%R x (resetRotation st))).
Proof.
  intros x y z st.
  unfold setRotationFromEuler, applyLocalRotation, resetRotation,
    THREE_Quaternion.multiply, THREE_Quaternion.clone, THREE.newQuaternion,
    THREE_Quaternion.setFromAxisAngle, THREE_Quaternion.setFromEulerXYZ,
    THREE_Quaternion.multiplyQuaternions.
  cbn [headRotation headPan qx qy qz qw vx vy vz add sub mul div fromZ Number_R
       Math_sin Math_cos Trig_R].
  f_equal. f_equal; ring.
Qed.

(** ** The page *)

Section PageFacts.
Local Open Scope R_scope.

Lemma clamp_bounds (lo hi x : R) :
  lo <= hi -> lo <= Rmax lo (Rmin hi x) <= hi.
Proof.
  intros Hle. split; [apply Rmax_l|].
  apply Rmax_lub; [exact Hle|apply Rmin_l].
Qed.

End PageFacts.





(** ** The trackball *)

Section TrackballFacts.
Context {T : Type} `{Number T} `{Trig T}.
Variable Outside : Type.
Variable onImageDrag : option (T -> T -> Outside -> Outside).

(** While no button is held, a move does nothing. *)
Lemma pointerMoves_idle (moves : list (Trackball.PointerEvent T)) :
  forall w : Trackball.State T * RotationStore T * Outside,
    Trackball.isDragging (fst (fst w)) = false ->
    pointerMoves Outside onImageDrag moves w = w.
Proof.
  induction moves as [|e rest IH]; intros [[st store] outside] Hidle; [reflexivity|].
  cbn [fst] in Hidle. unfold pointerMoves in *. cbn [fold_left].
  unfold Trackball.handlePointerMove at 2. rewrite Hidle. cbn [negb].
  apply IH. exact Hidle.
Qed.

End TrackballFacts.

(** X26: in every number model, pointer moves that come while no button
    is held (before the first pointer down, or after a pointer up)
    change nothing: not the rotation, not the pan, not what
    [onImageDrag] acts on, not the trackball's own variables. *)
Theorem trackball_idle_moves :
  forall (T : Type) (N : Number T) (G : Trig T) (Outside : Type)
         (onImageDrag : option (T -> T -> Outside -> Outside))
         (moves : list (Trackball.PointerEvent T))
         (st : Trackball.State T) (store : RotationStore T) (outside : Outside),
    pointerMoves Outside onImageDrag moves (Trackball.initialState, store, outside)
    = (Trackball.initialState, store, outside)
    /\ pointerMoves Outside onImageDrag moves
         (Trackball.handlePointerUp st, store, outside)
       = (Trackball.handlePointerUp st, store, outside).
Proof.
  intros. split; apply pointerMoves_idle; reflexivity.
Qed.

Section TrackballDrag.
Variable Outside : Type.
Variable onImageDrag : option (R -> R -> Outside -> Outside).
Local Open Scope R_scope.

Lemma pan_moves (moves : list (Trackball.PointerEvent R)) :
  forall (x y : R) (store : RotationStore R) (outside : Outside),
    pointerMoves Outside onImageDrag moves
      (Trackball.mkState true true false x y, store, outside)
    = (Trackball.mkState true true false
         (fst (lastPosition x y moves)) (snd (lastPosition x y moves)),
       mkRotationStore (headRotation store)
         (mkPan (pan_x (headPan store) + (fst (lastPosition x y moves) - x))
                (pan_y (headPan store) - (snd (lastPosition x y moves) - y))),
       outside).
Proof.
  induction moves as [|e rest IH]; intros x y store outside.
  - cbn [pointerMoves fold_left lastPosition fst snd].
    destruct store as [q [a b]]. cbn [headRotation headPan pan_x pan_y].
    f_equal. f_equal. f_equal. f_equal; ring.
  - unfold pointerMoves in *. cbn [fold_left].
    unfold Trackball.handlePointerMove at 2.
    cbn [Trackball.isDragging Trackball.isPanning Trackball.isImageDragging negb
         Trackball.lastX Trackball.lastY].
    rewrite IH. unfold lastPosition. cbn [fold_left].
    unfold applyPan, Trackball.panSpeed.
    cbn [headRotation headPan pan_x pan_y add sub mul neg fromZ Number_R].
    f_equal. f_equal. f_equal. f_equal; ring.
Qed.

(** In image mode the moves go to [onImageDrag], if there is one. *)
Lemma image_moves (drag : R -> R -> Outside -> Outside)
    (moves : list (Trackball.PointerEvent R)) :
  forall (x y : R) (store : RotationStore R) (outside : Outside),
    pointerMoves Outside (Some drag) moves
      (Trackball.mkState true false true x y, store, outside)
    = (Trackball.mkState true false true
         (fst (lastPosition x y moves)) (snd (lastPosition x y moves)),
       store, imageDrags drag x y moves outside).
Proof.
  induction moves as [|e rest IH]; intros x y store outside; [reflexivity|].
  unfold pointerMoves in *. cbn [fold_left].
  unfold Trackball.handlePointerMove at 2.
  cbn [Trackball.isDragging Trackball.isPanning Trackball.isImageDragging negb
       Trackball.lastX Trackball.lastY].
  rewrite IH. reflexivity.
Qed.

(** A move in rotate mode turns about unit axes and leaves the pan. *)
Lemma rotate_step (e : Trackball.PointerEvent R) (x y : R)
    (store : RotationStore R) (outside : Outside) :
  unitStore store ->
  exists store' : RotationStore R,
    Trackball.handlePointerMove Outside onImageDrag e
      (Trackball.mkState true false false x y, store, outside)
    = (Trackball.mkState true false false (Trackball.clientX e) (Trackball.clientY e),
       store', outside)
    /\ unitStore store' /\ headPan store' = headPan store.
Proof.
  intros Hst.
  assert (Hstep : forall axis angle st,
             dot axis axis = 1 -> unitStore st ->
             unitStore (applyRotation axis angle st)).
  { intros axis angle st Ha Hs.
    unfold unitStore, applyRotation, THREE_Quaternion.premultiply,
      THREE_Quaternion.clone in *.
    cbn [headRotation]. rewrite multiplyQuaternions_qmul.
    apply unitQuaternion_qmul; [apply unitQuaternion_setFromAxisAngle; exact Ha|exact Hs]. }
  destruct unit_axes as (HX & HY & _).
  unfold Trackball.handlePointerMove.
  cbn [Trackball.isDragging Trackball.isPanning Trackball.isImageDragging negb
       Trackball.lastX Trackball.lastY fromZ ltb sub Math_abs Number_R].
  cbv zeta.
  destruct (RealNumber.Rltb 0 (Rabs (Trackball.clientX e - x)));
    destruct (RealNumber.Rltb 0 (Rabs (Trackball.clientY e - y)));
    eexists; (split; [reflexivity|]); (split; [|reflexivity]);
    repeat (apply Hstep; [assumption|]); exact Hst.
Qed.

Lemma rotate_moves (moves : list (Trackball.PointerEvent R)) :
  forall (x y : R) (store : RotationStore R) (outside : Outside),
    unitStore store ->
    let w := pointerMoves Outside onImageDrag moves
               (Trackball.mkState true false false x y, store, outside) in
    unitStore (snd (fst w)) /\ headPan (snd (fst w)) = headPan store
    /\ snd w = outside.
Proof.
  induction moves as [|e rest IH]; intros x y store outside Hst; cbn zeta.
  - cbn [pointerMoves fold_left fst snd]. auto.
  - unfold pointerMoves in *. cbn [fold_left].
    destruct (rotate_step e x y store outside Hst) as (store' & -> & Hu & Hp).
    rewrite <- Hp. apply IH. exact Hu.
Qed.

End TrackballDrag.

(** X27: in exact arithmetic, a drag that starts in pan mode (the
    control mode is not the image's, the button is not the right one,
    shift is not held) moves the head by exactly the way the pointer
    went from where it was pressed to where it is, however many moves
    came between: x by the difference in clientX, y by the opposite of
    the difference in clientY.  The rotation and what [onImageDrag]
    acts on are not touched. *)
Theorem trackball_pan_drag :
  forall (Outside : Type) (onImageDrag : option (R -> R -> Outside -> Outside))
         (controlMode : Page.ControlMode)
         (down : Trackball.PointerEvent R) (moves : list (Trackball.PointerEvent R))
         (st : Trackball.State R) (store : RotationStore R) (outside : Outside),
    controlMode <> Page.image ->
    Trackball.button down <> 2%Z -> Trackball.shiftKey down = false ->
    let x := fst (lastPosition (Trackball.clientX down) (Trackball.clientY down) moves) in
    let y := snd (lastPosition (Trackball.clientX down) (Trackball.clientY down) moves) in
    Trackball.drag Outside onImageDrag controlMode down moves (st, store, outside)
    = (Trackball.mkState true true false x y,
       mkRotationStore (headRotation store)
         (mkPan (pan_x (headPan store) + (x - Trackball.clientX down))%R
                (pan_y (headPan store) - (y - Trackball.clientY down))%R),
       outside).
Proof.
  intros Outside onImageDrag controlMode down moves st store outside Hmode Hb Hs x y.
  unfold Trackball.drag, Trackball.handlePointerDown.
  apply Z.eqb_neq in Hb. rewrite Hb, Hs. cbn [negb andb].
  destruct controlMode; [| |contradiction]; apply pan_moves.
Qed.

(** The theorem on a drag of two moves that ends 30 to the right and 10
    lower than it started. *)
Lemma trackball_pan_drag_witness :
  snd (fst (Trackball.drag unit None Page.head
              (Trackball.mkPointerEvent 100%R 100%R 0%Z false)
              [ Trackball.mkPointerEvent 120%R 90%R 0%Z false;
                Trackball.mkPointerEvent 130%R 110%R 0%Z false ]
              (Trackball.initialState, initialStore, tt)))
  = mkRotationStore (headRotation initialStore)
      (mkPan (pan_x (headPan initialStore) + (130 - 100))%R
             (pan_y (headPan initialStore) - (110 - 100))%R).
Proof.
  rewrite (trackball_pan_drag unit None Page.head
             (Trackball.mkPointerEvent 100%R 100%R 0%Z false)
             [ Trackball.mkPointerEvent 120%R 90%R 0%Z false;
               Trackball.mkPointerEvent 130%R 110%R 0%Z false ]
             Trackball.initialState initialStore tt);
    [reflexivity|discriminate|discriminate|reflexivity].
Defined.

(** X28: in exact arithmetic, a drag that starts in rotate mode (not the
    image's control mode; the right button, or shift held) keeps the
    orientation in the store a unit quaternion and changes neither the
    pan nor what [onImageDrag] acts on. *)
Theorem trackball_rotate_drag :
  forall (Outside : Type) (onImageDrag : option (R -> R -> Outside -> Outside))
         (controlMode : Page.ControlMode)
         (down : Trackball.PointerEvent R) (moves : list (Trackball.PointerEvent R))
         (st : Trackball.State R) (store : RotationStore R) (outside : Outside),
    controlMode <> Page.image ->
    Trackball.button down = 2%Z \/ Trackball.shiftKey down = true ->
    unitStore store ->
    let w := Trackball.drag Outside onImageDrag controlMode down moves
               (st, store, outside) in
    unitStore (snd (fst w)) /\ headPan (snd (fst w)) = headPan store
    /\ snd w = outside.
Proof.
  intros Outside onImageDrag controlMode down moves st store outside Hmode Hrot Hst.
  unfold Trackball.drag, Trackball.handlePointerDown.
  assert (Hpan : negb (Trackball.button down =? 2)%Z && negb (Trackball.shiftKey down)
                 = false).
  { destruct Hrot as [Hb|Hs].
    - apply Z.eqb_eq in Hb. rewrite Hb. reflexivity.
    - rewrite Hs. apply andb_false_r. }
  rewrite Hpan.
  destruct controlMode; [| |contradiction]; apply rotate_moves; exact Hst.
Qed.

(** The theorem on a right-button drag from the start. *)
Lemma trackball_rotate_drag_witness :
  unitStore
    (snd (fst (Trackball.drag unit None Page.canvas
                 (Trackball.mkPointerEvent 100%R 100%R 2%Z false)
                 [ Trackball.mkPointerEvent 120%R 90%R 2%Z false ]
                 (Trackball.initialState, initialStore, tt)))).
Proof.
  refine (proj1 (trackball_rotate_drag unit None Page.canvas
                   (Trackball.mkPointerEvent 100%R 100%R 2%Z false)
                   [ Trackball.mkPointerEvent 120%R 90%R 2%Z false ]
                   Trackball.initialState initialStore tt _ _ _)).
  - discriminate.
  - left. reflexivity.
  - apply unitQuaternion_identity.
Defined.

(** X29: in exact arithmetic, a drag in the image's control mode, with
    an [onImageDrag] handler, never touches the rotation store: every
    move is handed to the handler, with the step of the pointer since
    the event before. *)
Theorem trackball_image_drag :
  forall (Outside : Type) (handler : R -> R -> Outside -> Outside)
         (down : Trackball.PointerEvent R) (moves : list (Trackball.PointerEvent R))
         (st : Trackball.State R) (store : RotationStore R) (outside : Outside),
    snd (fst (Trackball.drag Outside (Some handler) Page.image down moves
                (st, store, outside))) = store
    /\ snd (Trackball.drag Outside (Some handler) Page.image down moves
              (st, store, outside))
       = imageDrags handler (Trackball.clientX down) (Trackball.clientY down)
                    moves outside.
Proof.
  intros Outside handler down moves st store outside.
  unfold Trackball.drag, Trackball.handlePointerDown, Trackball.hasOnImageDrag.
  pose proof (image_moves Outside handler moves (Trackball.clientX down)
                (Trackball.clientY down) store outside) as Hm.
  unfold pointerMoves in Hm. cbv iota. rewrite Hm.
  split; reflexivity.
Qed.
